(** * microcode-api: the authentication subsystem and the settings validators

    A shallow embedding of [app/auth/service.py], [app/core/config.py],
    [app/models/__init__.py] (the [User] table) and the [/auth/me] endpoint of
    [app/api/v1/endpoints/auth.py], with the properties the specification
    states about them.

    Conventions.
    - A Python call either returns or raises: [outcome A].
    - Time is POSIX time in whole seconds ([Z]), the resolution of the [exp]
      claim, and a lifetime is a number of whole seconds.  One service call
      reads one clock value [now]: every [datetime.utcnow()] and every
      database [now()] inside the call.  A [datetime] lies between the years
      1 and 9999 and a [timedelta] within 999999999 days; the arithmetic
      that leaves these ranges raises [OverflowError] ([Datetime]).
    - A claim set ([Dict[str, Any]] that goes through JSON) is a
      [gmap string jvalue].
    - A token string is kept in parsed form ([token]): either it is not a
      compact JWS carrying a JSON object, or it is one, with its header
      algorithm, its payload and its signature.  Signatures are symbolic
      ([Mac key alg payload]).
    - A user id is the text of its UUID, and ids are compared as text.
    - A [str] is the sequence of its code points, each below 256: a
      character of a [string] is a code point, not a byte of an encoding.

    Libraries the code calls, and how they enter.
    - python-jose: [Jose.encode] and [Jose.decode] follow the documented
      behaviour of [jwt.encode] and [jwt.decode] under the default options:
      algorithm and signature check, then the registered claims.
    - SQLAlchemy: the session is a state and error monad over the rows of
      [users]; a commit is an INSERT or an UPDATE under the constraints the
      model file declares, and an UPDATE stamps [updated_at].
    - google-auth: Google's verdict on a token string is a variable of the
      section ([verify_oauth2_token]).
    - pydantic: the settings class validates its fields in declaration
      order, defaults included, and hands each validator the fields before
      it ([Config.load_settings]).  A field of a list type is read from an
      argument as it is and from the environment as JSON; after its [pre]
      validator the value is validated against the field's type; what a
      validator raises, and what the type refuses, is a [ValidationError]
      ([Config.load_BACKEND_CORS_ORIGINS]).  The JSON decoder proper and
      the validation of one URL are variables of a section. *)

From Stdlib Require Import ZArith String Ascii List Bool Lia.
From stdpp Require Import base decidable option list gmap strings.

Local Open Scope string_scope.
Local Open Scope list_scope.
Local Open Scope Z_scope.

(** ** Python outcomes *)

Inductive exn : Type :=
| JWTError                                  (* jose.exceptions.JWTError *)
| ExpiredSignatureError                     (* subclass of JWTError *)
| JWTClaimsError                            (* subclass of JWTError *)
| AuthenticationError (msg : string)        (* app.auth.service *)
| ValueError
| ValidationError                           (* pydantic; a ValueError *)
| SettingsError                             (* pydantic; a ValueError *)
| OverflowError                             (* datetime arithmetic *)
| KeyError (key : string)
| MultipleResultsFound                      (* sqlalchemy.exc *)
| IntegrityError                            (* sqlalchemy.exc *)
| HTTPException (status_code : Z) (detail : string)
| OtherException (msg : string).            (* any other Exception *)

Inductive outcome (A : Type) : Type :=
| Return (a : A)
| Raise (e : exn).
Arguments Return {A} a.
Arguments Raise {A} e.

Definition bind {A B : Type} (m : outcome A) (k : A -> outcome B) : outcome B :=
  match m with
  | Return a => k a
  | Raise e => Raise e
  end.

Notation "x <- m ;; k" := (bind m (fun x => k))
  (at level 100, m at next level, right associativity).

(** [isinstance(e, JWTError)]: the class and its two subclasses. *)
Definition is_JWTError (e : exn) : bool :=
  match e with
  | JWTError | ExpiredSignatureError | JWTClaimsError => true
  | _ => false
  end.

(** [str(e)] for the exceptions whose text the service formats. *)
Definition exn_str (e : exn) : string :=
  match e with
  | AuthenticationError msg => msg
  | HTTPException _ detail => detail
  | OtherException msg => msg
  | _ => ""
  end.

(** ** JSON values and claim sets *)

Inductive jvalue : Type :=
| JNull
| JBool (b : bool)
| JNum (n : Z)
| JStr (s : string).

Global Instance jvalue_eq_dec : EqDecision jvalue.
Proof. solve_decision. Defined.

(** Python truthiness of a value; [None] is falsy. *)
Definition truthy (v : jvalue) : bool :=
  match v with
  | JNull => false
  | JBool b => b
  | JNum n => negb (n =? 0)
  | JStr s => negb (String.eqb s "")
  end.

(** [d.get(k)]: a missing key reads as [None]. *)
Definition dict_get (d : gmap string jvalue) (k : string) : jvalue :=
  default JNull (d !! k).

Definition opt_str (o : option string) : jvalue :=
  match o with Some s => JStr s | None => JNull end.

Definition opt_num (o : option Z) : jvalue :=
  match o with Some n => JNum n | None => JNull end.

(** ** Settings (app/core/config.py, the fields the token code reads) *)

Record Settings : Type := {
  PROJECT_NAME : string;
  SECRET_KEY : string;
  ALGORITHM : string;
  ACCESS_TOKEN_EXPIRE_MINUTES : Z;
  REFRESH_TOKEN_EXPIRE_DAYS : Z
}.

(** The class defaults; [SECRET_KEY] is drawn at start-up. *)
Definition default_settings (secret : string) : Settings := {|
  PROJECT_NAME := "MicroCode API";
  SECRET_KEY := secret;
  ALGORITHM := "HS256";
  ACCESS_TOKEN_EXPIRE_MINUTES := 30;
  REFRESH_TOKEN_EXPIRE_DAYS := 7
|}.

(** ** [datetime] and [timedelta] (the standard library) *)

Module Datetime.

(** [datetime.min] and [datetime.max], 0001-01-01T00:00:00 and
    9999-12-31T23:59:59, as POSIX seconds. *)
Definition min_time : Z := -62135596800.
Definition max_time : Z := 253402300799.

(** [timedelta.max.days]. *)
Definition max_days : Z := 999999999.

(** [timedelta(seconds=n)], also reached as [timedelta(minutes=m)] and
    [timedelta(days=d)]: the normalised number of days must lie within
    [max_days] on either side. *)
Definition timedelta (seconds : Z) : outcome Z :=
  if (- max_days * 86400 <=? seconds) && (seconds <? (max_days + 1) * 86400)
  then Return seconds
  else Raise OverflowError.

(** [d + delta] for a datetime [d]: the sum must be a datetime. *)
Definition add (d delta : Z) : outcome Z :=
  if (min_time <=? d + delta) && (d + delta <=? max_time)
  then Return (d + delta)
  else Raise OverflowError.

End Datetime.

(** ** Tokens and python-jose's [jwt.encode] / [jwt.decode] *)

Record jws_signature : Type := Mac {
  mac_key : string;
  mac_alg : string;
  mac_payload : gmap string jvalue
}.

Global Instance jws_signature_eq_dec : EqDecision jws_signature.
Proof. solve_decision. Defined.

Inductive token : Type :=
| Malformed (raw : string)
| Compact (alg : string) (payload : gmap string jvalue) (sig : jws_signature).

Module Jose.

(** [jwt.encode(claims, key, algorithm)]: sign the claim set. *)
Definition encode (claims : gmap string jvalue) (key alg : string) : token :=
  Compact alg claims (Mac key alg claims).

(** A NumericDate claim must be an integer. *)
Definition numeric_date (v : jvalue) : option Z :=
  match v with JNum n => Some n | _ => None end.

Definition is_str (v : jvalue) : bool :=
  match v with JStr _ => true | _ => false end.

(** [exp]: absent, or an integer not before [now]
    (the library raises when [exp < now]). *)
Definition validate_exp (c : gmap string jvalue) (now : Z) : outcome unit :=
  match c !! "exp" with
  | None => Return tt
  | Some v =>
      match numeric_date v with
      | None => Raise JWTClaimsError
      | Some e => if e <? now then Raise ExpiredSignatureError else Return tt
      end
  end.

Definition validate_iat (c : gmap string jvalue) : outcome unit :=
  match c !! "iat" with
  | None => Return tt
  | Some v => if numeric_date v is Some _ then Return tt else Raise JWTClaimsError
  end.

Definition validate_nbf (c : gmap string jvalue) (now : Z) : outcome unit :=
  match c !! "nbf" with
  | None => Return tt
  | Some v =>
      match numeric_date v with
      | None => Raise JWTClaimsError
      | Some n => if now <? n then Raise JWTClaimsError else Return tt
      end
  end.

(** No audience is passed to [decode], so a token that names one is
    refused. *)
Definition validate_aud (c : gmap string jvalue) : outcome unit :=
  match c !! "aud" with
  | None => Return tt
  | Some _ => Raise JWTClaimsError
  end.

(** "Subject must be a string." *)
Definition validate_sub (c : gmap string jvalue) : outcome unit :=
  match c !! "sub" with
  | None => Return tt
  | Some v => if is_str v then Return tt else Raise JWTClaimsError
  end.

Definition validate_jti (c : gmap string jvalue) : outcome unit :=
  match c !! "jti" with
  | None => Return tt
  | Some v => if is_str v then Return tt else Raise JWTClaimsError
  end.

(** No access token is passed to compare an [at_hash] against. *)
Definition validate_at_hash (c : gmap string jvalue) : outcome unit :=
  match c !! "at_hash" with
  | None => Return tt
  | Some _ => Raise JWTClaimsError
  end.

(** The registered-claim checks of [decode] under its default options,
    in the library's order. *)
Definition validate_claims (c : gmap string jvalue) (now : Z) : outcome unit :=
  _ <- validate_iat c ;;
  _ <- validate_nbf c now ;;
  _ <- validate_exp c now ;;
  _ <- validate_aud c ;;
  _ <- validate_sub c ;;
  _ <- validate_jti c ;;
  validate_at_hash c.

(** [jwt.decode(token, key, algorithms=[...])] at clock value [now]. *)
Definition decode (t : token) (key : string) (algorithms : list string)
    (now : Z) : outcome (gmap string jvalue) :=
  match t with
  | Malformed _ => Raise JWTError
  | Compact alg payload sig =>
      if negb (bool_decide (alg ∈ algorithms)) then Raise JWTError
      else if negb (bool_decide (sig = Mac key alg payload)) then Raise JWTError
      else
        _ <- validate_claims payload now ;;
        Return payload
  end.

End Jose.

(** ** The users table (app/models/__init__.py) *)

Module User.

Record t : Type := mk {
  id : string;                       (* str(user.id), the UUID in text *)
  email : string;                    (* unique, nullable=False *)
  full_name : option string;
  avatar_url : option string;
  google_id : option string;         (* unique *)
  telegram_id : option string;       (* unique *)
  github_id : option string;         (* unique *)
  preferred_language : option string;
  timezone : option string;
  country : option string;
  is_active : bool;
  is_verified : bool;
  is_premium : bool;
  created_at : option Z;
  updated_at : option Z;             (* onupdate=func.now() *)
  last_login : option Z
}.

Global Instance eq_dec : EqDecision t.
Proof. solve_decision. Defined.

Definition set_google_id (g : option string) (u : t) : t :=
  mk (id u) (email u) (full_name u) (avatar_url u) g (telegram_id u)
     (github_id u) (preferred_language u) (timezone u) (country u)
     (is_active u) (is_verified u) (is_premium u)
     (created_at u) (updated_at u) (last_login u).

Definition set_last_login (l : option Z) (u : t) : t :=
  mk (id u) (email u) (full_name u) (avatar_url u) (google_id u)
     (telegram_id u) (github_id u) (preferred_language u) (timezone u)
     (country u) (is_active u) (is_verified u) (is_premium u)
     (created_at u) (updated_at u) l.

Definition set_updated_at (l : option Z) (u : t) : t :=
  mk (id u) (email u) (full_name u) (avatar_url u) (google_id u)
     (telegram_id u) (github_id u) (preferred_language u) (timezone u)
     (country u) (is_active u) (is_verified u) (is_premium u)
     (created_at u) l (last_login u).

End User.

(** ** The database session: a state and error monad over the table *)

Definition io (A : Type) : Type := list User.t -> outcome A * list User.t.

Definition ret {A : Type} (a : A) : io A := fun db => (Return a, db).

Definition raise {A : Type} (e : exn) : io A := fun db => (Raise e, db).

Definition lift {A : Type} (o : outcome A) : io A := fun db => (o, db).

Definition io_bind {A B : Type} (m : io A) (k : A -> io B) : io B :=
  fun db =>
    match m db with
    | (Return a, db') => k a db'
    | (Raise e, db') => (Raise e, db')
    end.

Notation "x <~ m ;; k" := (io_bind m (fun x => k))
  (at level 100, m at next level, right associativity).

(** [result.scalar_one_or_none()]. *)
Definition scalar_one_or_none (rows : list User.t) : outcome (option User.t) :=
  match rows with
  | [] => Return None
  | [u] => Return (Some u)
  | _ => Raise MultipleResultsFound
  end.

(** [select(User).where(p)]. *)
Definition select_where (p : User.t -> bool) : io (list User.t) :=
  fun db => (Return (List.filter p db), db).

(** Two rows that cannot both be in the table: same primary key, same
    email, or the same non-null external identity. *)
Definition same_identity (a b : option string) : bool :=
  match a with
  | Some _ => bool_decide (a = b)
  | None => false
  end.

Definition conflicts (r u : User.t) : bool :=
  bool_decide (User.email r = User.email u)
  || same_identity (User.google_id r) (User.google_id u)
  || same_identity (User.telegram_id r) (User.telegram_id u)
  || same_identity (User.github_id r) (User.github_id u).

(** [db.add(user); await db.commit(); await db.refresh(user)] for a new
    row: the INSERT fails on a constraint, else the row is appended. *)
Definition insert_row (u : User.t) : io User.t :=
  fun db =>
    if existsb (fun r => bool_decide (User.id r = User.id u) || conflicts r u) db
    then (Raise IntegrityError, db)
    else (Return u, db ++ [u]).

(** The table after the row with primary key [k] was rewritten to [u']. *)
Definition replace_by_id (k : string) (u' : User.t) (db : list User.t)
    : list User.t :=
  List.map (fun r => if bool_decide (User.id r = k) then u' else r) db.

(** [await db.commit()] after attribute assignments on a loaded row:
    [loaded] is the row as read, [current] the object now.  Without a
    change no UPDATE is sent; with one, [updated_at] is stamped, and the
    UPDATE fails on a uniqueness constraint. *)
Definition update_row (loaded current : User.t) (now : Z) : io User.t :=
  fun db =>
    if bool_decide (current = loaded) then (Return loaded, db)
    else if existsb (fun r => negb (bool_decide (User.id r = User.id loaded))
                              && conflicts r current) db
    then (Raise IntegrityError, db)
    else
      let stamped := User.set_updated_at (Some now) current in
      (Return stamped, replace_by_id (User.id loaded) stamped db).

(** ** UserService *)

Definition get_user_by_id (user_id : jvalue) : io (option User.t) :=
  rows <~ select_where (fun u => bool_decide (JStr (User.id u) = user_id)) ;;
  lift (scalar_one_or_none rows).

Definition get_user_by_email (email : option string) : io (option User.t) :=
  rows <~ select_where (fun u => bool_decide (Some (User.email u) = email)) ;;
  lift (scalar_one_or_none rows).

Definition get_user_by_google_id (google_id : option string) : io (option User.t) :=
  rows <~ select_where (fun u => bool_decide (User.google_id u = google_id)) ;;
  lift (scalar_one_or_none rows).

(** What [verify_google_token] hands on. *)
Record GoogleData : Type := {
  gd_google_id : option string;
  gd_email : option string;
  gd_full_name : option string;
  gd_avatar_url : option string;
  gd_email_verified : bool
}.

(** The row that [User(email=..., ...)] becomes at the INSERT, the column
    defaults filled in; [uuid] is the value [uuid.uuid4()] yields for it. *)
Definition new_user_from_google (google_data : GoogleData) (email : string)
    (now : Z) (uuid : string) : User.t := {|
  User.id := uuid;
  User.email := email;
  User.full_name := gd_full_name google_data;
  User.avatar_url := gd_avatar_url google_data;
  User.google_id := gd_google_id google_data;
  User.telegram_id := None;
  User.github_id := None;
  User.preferred_language := Some "en";
  User.timezone := Some "UTC";
  User.country := None;
  User.is_active := true;
  User.is_verified := gd_email_verified google_data;
  User.is_premium := false;
  User.created_at := Some now;
  User.updated_at := None;
  User.last_login := Some now
|}.

(** A missing email violates the NOT NULL constraint at the INSERT. *)
Definition create_user_from_google (google_data : GoogleData) (now : Z)
    (uuid : string) : io User.t :=
  match gd_email google_data with
  | None => raise IntegrityError
  | Some email => insert_row (new_user_from_google google_data email now uuid)
  end.

(** [user.last_login = datetime.utcnow(); await db.commit();
    await db.refresh(user)].  The value assigned is a reading of the clock
    taken after the row was loaded or inserted, so the attribute has
    changed and the UPDATE is sent each time; it writes [last_login] and
    the [onupdate] stamp, no column under a constraint. *)
Definition update_user_login (user : User.t) (now : Z) : io User.t :=
  fun db =>
    let stamped :=
      User.set_updated_at (Some now) (User.set_last_login (Some now) user) in
    (Return stamped, replace_by_id (User.id user) stamped db).

(** ** The services, over the process-wide settings and Google's verdict *)

(** The fields of Google's [idinfo] that the provider reads. *)
Record IdInfo : Type := {
  iss : option string;
  sub : option string;
  idinfo_email : option string;
  name : option string;
  picture : option string;
  email_verified : option bool
}.

(** Values of the dictionaries the service returns. *)
Inductive rvalue : Type :=
| RToken (t : token)
| RStr (s : string)
| RDict (d : gmap string jvalue).

Section Auth.

Variable settings : Settings.

(** [id_token.verify_oauth2_token(token, requests.Request(),
    settings.GOOGLE_CLIENT_ID)]: Google's answer for a token string. *)
Variable verify_oauth2_token : string -> outcome IdInfo.

(** *** TokenManager *)

(** [datetime.utcnow() + timedelta(minutes=...)], the default lifetime. *)
Definition default_access_expiry (now : Z) : outcome Z :=
  delta <- Datetime.timedelta (ACCESS_TOKEN_EXPIRE_MINUTES settings * 60) ;;
  Datetime.add now delta.

(** [expires_delta] in seconds; [timedelta(0)] is falsy, like [None]. *)
Definition create_access_token (data : gmap string jvalue)
    (expires_delta : option Z) (now : Z) : outcome token :=
  let to_encode := data in
  expire <- match expires_delta with
            | Some d => if d =? 0
                        then default_access_expiry now
                        else Datetime.add now d
            | None => default_access_expiry now
            end ;;
  let to_encode :=
    <["type" := JStr "access"]> (<["exp" := JNum expire]> to_encode) in
  Return (Jose.encode to_encode (SECRET_KEY settings) (ALGORITHM settings)).

Definition create_refresh_token (data : gmap string jvalue) (now : Z)
    : outcome token :=
  let to_encode := data in
  delta <- Datetime.timedelta (REFRESH_TOKEN_EXPIRE_DAYS settings * 86400) ;;
  expire <- Datetime.add now delta ;;
  let to_encode :=
    <["type" := JStr "refresh"]> (<["exp" := JNum expire]> to_encode) in
  Return (Jose.encode to_encode (SECRET_KEY settings) (ALGORITHM settings)).

(** [try: return jwt.decode(...) except JWTError: return None]. *)
Definition verify_token (t : token) (now : Z)
    : outcome (option (gmap string jvalue)) :=
  match Jose.decode t (SECRET_KEY settings) [ALGORITHM settings] now with
  | Return payload => Return (Some payload)
  | Raise e => if is_JWTError e then Return None else Raise e
  end.

(** *** GoogleAuthProvider *)

Definition verify_google_token (google_token : string) : outcome GoogleData :=
  let body :=
    idinfo <- verify_oauth2_token google_token ;;
    if negb (bool_decide (iss idinfo ∈
               [Some "accounts.google.com"; Some "https://accounts.google.com"]))
    then Raise (AuthenticationError "Invalid token issuer")
    else Return {|
      gd_google_id := sub idinfo;
      gd_email := idinfo_email idinfo;
      gd_full_name := name idinfo;
      gd_avatar_url := picture idinfo;
      gd_email_verified := default false (email_verified idinfo)
    |} in
  match body with
  | Return d => Return d
  | Raise e =>
      Raise (AuthenticationError
               ("Google token verification failed: " +:+ exn_str e))
  end.

(** *** AuthService *)

(** Lines 174-196 of [authenticate_with_google]: find, link or create the
    user, then stamp the login. *)
Definition resolve_google_user (google_data : GoogleData) (now : Z)
    (uuid : string) : io User.t :=
  user <~ get_user_by_google_id (gd_google_id google_data) ;;
  user <~ match user with
          | Some u => ret u
          | None =>
              user <~ get_user_by_email (gd_email google_data) ;;
              match user with
              | Some u =>
                  update_row u
                    (User.set_google_id (gd_google_id google_data) u) now
              | None => create_user_from_google google_data now uuid
              end
          end ;;
  update_user_login user now.

Definition user_projection (user : User.t) : gmap string jvalue :=
  {[ "id" := JStr (User.id user);
     "email" := JStr (User.email user);
     "full_name" := opt_str (User.full_name user);
     "avatar_url" := opt_str (User.avatar_url user);
     "is_verified" := JBool (User.is_verified user);
     "is_premium" := JBool (User.is_premium user) ]}.

Definition authenticate_with_google (google_token : string) (now : Z)
    (uuid : string) : io (gmap string rvalue) :=
  google_data <~ lift (verify_google_token google_token) ;;
  user <~ resolve_google_user google_data now uuid ;;
  access_token <~
    lift (create_access_token
            {[ "sub" := JStr (User.id user); "email" := JStr (User.email user) ]}
            None now) ;;
  refresh_token <~
    lift (create_refresh_token {[ "sub" := JStr (User.id user) ]} now) ;;
  ret {[ "access_token" := RToken access_token;
         "refresh_token" := RToken refresh_token;
         "token_type" := RStr "bearer";
         "user" := RDict (user_projection user) ]}.

(** [not payload or payload.get("type") != kind]; an empty claim set is
    falsy. *)
Definition bad_payload (payload : option (gmap string jvalue))
    (kind : string) : bool :=
  match payload with
  | None => true
  | Some p =>
      bool_decide (p = ∅) || negb (bool_decide (dict_get p "type" = JStr kind))
  end.

Definition refresh_access_token (refresh_token : token) (now : Z)
    : io (gmap string rvalue) :=
  payload <~ lift (verify_token refresh_token now) ;;
  if bad_payload payload "refresh"
  then raise (AuthenticationError "Invalid refresh token")
  else
    let user_id := dict_get (default ∅ payload) "sub" in
    user <~ get_user_by_id user_id ;;
    match user with
    | None => raise (AuthenticationError "User not found or inactive")
    | Some user =>
        if negb (User.is_active user)
        then raise (AuthenticationError "User not found or inactive")
        else
          access_token <~
            lift (create_access_token
                    {[ "sub" := JStr (User.id user);
                       "email" := JStr (User.email user) ]}
                    None now) ;;
          ret {[ "access_token" := RToken access_token;
                 "token_type" := RStr "bearer" ]}
    end.

Definition get_current_user (t : token) (now : Z) : io (option User.t) :=
  payload <~ lift (verify_token t now) ;;
  if bad_payload payload "access" then ret None
  else
    let user_id := dict_get (default ∅ payload) "sub" in
    if negb (truthy user_id) then ret None
    else
      user <~ get_user_by_id user_id ;;
      match user with
      | Some u => if User.is_active u then ret (Some u) else ret None
      | None => ret None
      end.

End Auth.

(** ** GET /auth/me (app/api/v1/endpoints/auth.py) *)

Definition get_current_user_info (current_user : option User.t)
    : outcome (gmap string jvalue) :=
  match current_user with
  | None => Raise (HTTPException 401 "Not authenticated")
  | Some current_user =>
      Return {[ "id" := JStr (User.id current_user);
                "email" := JStr (User.email current_user);
                "full_name" := opt_str (User.full_name current_user);
                "avatar_url" := opt_str (User.avatar_url current_user);
                "is_verified" := JBool (User.is_verified current_user);
                "is_premium" := JBool (User.is_premium current_user);
                "preferred_language" :=
                  opt_str (User.preferred_language current_user);
                "created_at" := opt_num (User.created_at current_user);
                "last_login" := opt_num (User.last_login current_user) ]}
  end.

(** ** POST /auth/google and POST /auth/refresh
    (app/api/v1/endpoints/auth.py) *)

Module AuthEndpoints.

Section Routes.

Variable settings : Settings.
Variable verify_oauth2_token : string -> outcome IdInfo.

(** [try: return await auth_service.authenticate_with_google(db, token)]
    [except AuthenticationError as e: raise HTTPException(401, str(e))]
    [except Exception: raise HTTPException(500, "Authentication failed")]. *)
Definition authenticate_with_google (token : string) (now : Z)
    (uuid : string) : io (gmap string rvalue) :=
  fun db =>
    match authenticate_with_google settings verify_oauth2_token
            token now uuid db with
    | (Return result, db') => (Return result, db')
    | (Raise (AuthenticationError msg), db') =>
        (Raise (HTTPException 401 msg), db')
    | (Raise _, db') =>
        (Raise (HTTPException 500 "Authentication failed"), db')
    end.

Definition refresh_access_token (refresh_token : token) (now : Z)
    : io (gmap string rvalue) :=
  fun db =>
    match refresh_access_token settings refresh_token now db with
    | (Return result, db') => (Return result, db')
    | (Raise (AuthenticationError msg), db') =>
        (Raise (HTTPException 401 msg), db')
    | (Raise _, db') =>
        (Raise (HTTPException 500 "Token refresh failed"), db')
    end.

End Routes.

End AuthEndpoints.

(** ** Settings validators (app/core/config.py) *)

Module Config.

(** Values a settings field or a validator argument can hold. *)
Inductive value : Type :=
| VNone
| VBool (b : bool)
| VInt (n : Z)
| VStr (s : string)
| VList (items : list string)
| VDict (items : list (string * string)).

Definition truthy (v : value) : bool :=
  match v with
  | VNone => false
  | VBool b => b
  | VInt n => negb (n =? 0)
  | VStr s => negb (String.eqb s "")
  | VList items => match items with [] => false | _ => true end
  | VDict items => match items with [] => false | _ => true end
  end.

(** [a and b]: the first falsy operand, else the last. *)
Definition py_and (a b : value) : value := if truthy a then b else a.

(** [values.get(k)]. *)
Definition get (values : gmap string value) (k : string) : value :=
  default VNone (values !! k).

(** *** Python's string methods, on code points below 256 *)

(** [c.isspace()]: tab, line feed, vertical tab, form feed, carriage
    return, the four separators 28-31, the space, the next-line control
    (133) and the no-break space (160). *)
Definition is_space (c : ascii) : bool :=
  let n := nat_of_ascii c in
  ((9 <=? n)%nat && (n <=? 13)%nat) || ((28 <=? n)%nat && (n <=? 32)%nat)
  || (n =? 133)%nat || (n =? 160)%nat.

Fixpoint lstrip (s : string) : string :=
  match s with
  | EmptyString => EmptyString
  | String c rest => if is_space c then lstrip rest else s
  end.

Fixpoint rstrip (s : string) : string :=
  match s with
  | EmptyString => EmptyString
  | String c rest =>
      match rstrip rest with
      | EmptyString => if is_space c then EmptyString else String c EmptyString
      | kept => String c kept
      end
  end.

(** [s.strip()]. *)
Definition strip (s : string) : string := rstrip (lstrip s).

(** [s.split(sep)] for a one-character separator: empty pieces are kept. *)
Fixpoint split (sep : ascii) (s : string) : list string :=
  match s with
  | EmptyString => [EmptyString]
  | String c rest =>
      if Ascii.eqb c sep then EmptyString :: split sep rest
      else match split sep rest with
           | [] => [String c EmptyString]
           | piece :: pieces => String c piece :: pieces
           end
  end.

(** [s.startswith(p)]. *)
Definition startswith (s p : string) : bool := String.prefix p s.

(** *** The validators *)

Definition assemble_cors_origins (v : value) : outcome value :=
  match v with
  | VStr s =>
      if negb (startswith s "[")
      then Return (VList (List.map strip (split "," s)))
      else Return v
  | VList _ => Return v
  | _ => Raise ValueError
  end.

Definition get_project_name (v : value) (values : gmap string value)
    : outcome value :=
  if negb (truthy v)
  then match values !! "PROJECT_NAME" with
       | Some name => Return name
       | None => Raise (KeyError "PROJECT_NAME")
       end
  else Return v.

Definition get_emails_enabled (v : value) (values : gmap string value)
    : outcome value :=
  Return (VBool (truthy (py_and (get values "SMTP_HOST")
                           (py_and (get values "SMTP_PORT")
                              (get values "EMAILS_FROM_EMAIL"))))).

(** *** Loading BACKEND_CORS_ORIGINS *)





Section Loader.

(** The JSON decoder proper, for a text that starts like a JSON value. *)
Variable json_decode : string -> outcome value.

(** pydantic's validation of one item as [AnyHttpUrl]. *)
Variable any_http_url : string -> outcome string.






End Loader.

(** *** Loading the email settings *)

(** What the environment gives for the fields involved, already of the
    field's type; [None] when the variable is not set. *)
Record Environ : Type := {
  env_PROJECT_NAME : option string;
  env_SMTP_PORT : option Z;
  env_SMTP_HOST : option string;
  env_EMAILS_FROM_EMAIL : option string;
  env_EMAILS_FROM_NAME : option string;
  env_EMAILS_ENABLED : option bool
}.

Definition of_str (o : option string) : value :=
  match o with Some s => VStr s | None => VNone end.

Definition of_int (o : option Z) : value :=
  match o with Some n => VInt n | None => VNone end.

(** One field: its validator sees the fields declared before it, and its
    result joins them.  The settings class validates defaults too. *)
Definition load_field (name : string) (v : value)
    (validator : value -> gmap string value -> outcome value)
    (values : gmap string value) : outcome (gmap string value) :=
  v <- validator v values ;;
  Return (<[name := v]> values).

Definition no_validator (v : value) (values : gmap string value)
    : outcome value := Return v.

(** The fields in the order the class declares them. *)
Definition load_settings (env : Environ) : outcome (gmap string value) :=
  values <- load_field "PROJECT_NAME"
              (VStr (default "MicroCode API" (env_PROJECT_NAME env)))
              no_validator ∅ ;;
  values <- load_field "SMTP_PORT" (of_int (env_SMTP_PORT env))
              no_validator values ;;
  values <- load_field "SMTP_HOST" (of_str (env_SMTP_HOST env))
              no_validator values ;;
  values <- load_field "EMAILS_FROM_EMAIL" (of_str (env_EMAILS_FROM_EMAIL env))
              no_validator values ;;
  values <- load_field "EMAILS_FROM_NAME" (of_str (env_EMAILS_FROM_NAME env))
              get_project_name values ;;
  load_field "EMAILS_ENABLED"
    (VBool (default false (env_EMAILS_ENABLED env)))
    get_emails_enabled values.

End Config.

(** * The specification's vocabulary *)

(** What the specification calls a malformed, a wrongly signed and an
    expired token. *)

Definition malformed (t : token) : Prop :=
  match t with
  | Malformed _ => True
  | Compact _ _ _ => False
  end.

Definition signature_invalid (settings : Settings) (t : token) : Prop :=
  match t with
  | Malformed _ => False
  | Compact alg payload sig => sig <> Mac (SECRET_KEY settings) alg payload
  end.

Definition expired (t : token) (now : Z) : Prop :=
  match t with
  | Malformed _ => False
  | Compact _ payload _ =>
      exists e, payload !! "exp" = Some (JNum e) /\ e < now
  end.

(** The constraints of the [users] table: the primary key (a UUID, whose
    text is never empty), the unique email and the unique external
    identities. *)
Record db_wf (db : list User.t) : Prop := {
  wf_ids : NoDup (map User.id db);
  wf_ids_nonempty : Forall (fun u => User.id u <> "") db;
  wf_emails : NoDup (map User.email db);
  wf_google_ids : NoDup (omap User.google_id db);
  wf_telegram_ids : NoDup (omap User.telegram_id db);
  wf_github_ids : NoDup (omap User.github_id db)
}.

(** The reasons the specification lists for not resolving a user. *)
Definition no_current_user (settings : Settings) (db : list User.t)
    (t : token) (now : Z) : Prop :=
  verify_token settings t now = Return None
  \/ exists p, verify_token settings t now = Return (Some p)
       /\ (p !! "type" <> Some (JStr "access")
           \/ p !! "sub" = None
           \/ (forall u, u ∈ db -> p !! "sub" <> Some (JStr (User.id u)))
           \/ (exists u, u ∈ db /\ p !! "sub" = Some (JStr (User.id u))
                 /\ User.is_active u = false)).


(** The row after [update_user_login] at [now]. *)
Definition stamp_login (now : Z) (u : User.t) : User.t :=
  User.set_updated_at (Some now) (User.set_last_login (Some now) u).

(** A clock value, or an expiry, that is a [datetime]. *)
Definition representable (t : Z) : Prop :=
  Datetime.min_time <= t <= Datetime.max_time.


(** The row after a Google identity was linked to it at [now]. *)
Definition link_google (g : string) (now : Z) (u : User.t) : User.t :=
  User.set_updated_at (Some now) (User.set_google_id (Some g) u).

(** Every column but [google_id], [last_login] and [updated_at] agrees. *)
Definition same_profile (u u' : User.t) : Prop :=
  User.id u' = User.id u
  /\ User.email u' = User.email u
  /\ User.full_name u' = User.full_name u
  /\ User.avatar_url u' = User.avatar_url u
  /\ User.telegram_id u' = User.telegram_id u
  /\ User.github_id u' = User.github_id u
  /\ User.preferred_language u' = User.preferred_language u
  /\ User.timezone u' = User.timezone u
  /\ User.country u' = User.country u
  /\ User.is_active u' = User.is_active u
  /\ User.is_verified u' = User.is_verified u
  /\ User.is_premium u' = User.is_premium u
  /\ User.created_at u' = User.created_at u.

(** The documented public fields of the profile. *)
Definition public_fields : gset string :=
  {[ "id"; "email"; "full_name"; "avatar_url"; "is_verified"; "is_premium";
     "preferred_language"; "created_at"; "last_login" ]}.

(** Two rows that agree on the columns behind the public fields. *)
Definition same_public (u v : User.t) : Prop :=
  User.id u = User.id v
  /\ User.email u = User.email v
  /\ User.full_name u = User.full_name v
  /\ User.avatar_url u = User.avatar_url v
  /\ User.is_verified u = User.is_verified v
  /\ User.is_premium u = User.is_premium v
  /\ User.preferred_language u = User.preferred_language v
  /\ User.created_at u = User.created_at v
  /\ User.last_login u = User.last_login v.

(** Strings: joining, and what trimming leaves. *)



(** How often [c] occurs in [s]. *)
Fixpoint occurrences (c : ascii) (s : string) : nat :=
  match s with
  | EmptyString => O
  | String d rest =>
      if Ascii.eqb d c then S (occurrences c rest) else occurrences c rest
  end.

Fixpoint all_space (s : string) : bool :=
  match s with
  | EmptyString => true
  | String c rest => Config.is_space c && all_space rest
  end.





(** ** A sample table and a sample Google verdict *)

(** Registered by email, no Google identity linked yet. *)
Definition alice : User.t := {|
  User.id := "0b0e7d2c-1f4a-4c1e-9a51-000000000001";
  User.email := "alice@example.com";
  User.full_name := Some "Alice";
  User.avatar_url := None;
  User.google_id := None;
  User.telegram_id := None;
  User.github_id := None;
  User.preferred_language := Some "en";
  User.timezone := Some "UTC";
  User.country := None;
  User.is_active := true;
  User.is_verified := false;
  User.is_premium := false;
  User.created_at := Some 100;
  User.updated_at := None;
  User.last_login := None
|}.

(** Signed in with Google before, since deactivated. *)
Definition bob : User.t := {|
  User.id := "0b0e7d2c-1f4a-4c1e-9a51-000000000002";
  User.email := "bob@example.com";
  User.full_name := Some "Bob";
  User.avatar_url := None;
  User.google_id := Some "google-bob";
  User.telegram_id := None;
  User.github_id := None;
  User.preferred_language := Some "en";
  User.timezone := Some "UTC";
  User.country := None;
  User.is_active := false;
  User.is_verified := true;
  User.is_premium := false;
  User.created_at := Some 200;
  User.updated_at := None;
  User.last_login := Some 300
|}.

Definition sample_db : list User.t := [alice; bob].

Definition sample_uuid : string := "0b0e7d2c-1f4a-4c1e-9a51-000000000003".

Definition google_identity (subject email : string) : IdInfo := {|
  iss := Some "https://accounts.google.com";
  sub := Some subject;
  idinfo_email := Some email;
  name := Some "Name From Google";
  picture := Some "https://example.com/picture.png";
  email_verified := Some true
|}.

(** Google accepts three token strings and refuses every other. *)
Definition sample_google (google_token : string) : outcome IdInfo :=
  if String.eqb google_token "token-of-alice"
  then Return (google_identity "google-alice" "alice@example.com")
  else if String.eqb google_token "token-of-bob"
  then Return (google_identity "google-bob" "bob@example.com")
  else if String.eqb google_token "token-of-carol"
  then Return (google_identity "google-carol" "carol@example.com")
  else Raise (OtherException "Invalid token").

Definition sample_data (subject email : string) : GoogleData := {|
  gd_google_id := Some subject;
  gd_email := Some email;
  gd_full_name := Some "Name From Google";
  gd_avatar_url := Some "https://example.com/picture.png";
  gd_email_verified := true
|}.




(** * Properties *)

(** ** python-jose's contract as modelled: what [decode] can raise *)

Ltac case_lookup :=
  match goal with
  | |- context [match ?m !! ?k with _ => _ end] =>
      let E := fresh "E" in destruct (m !! k) eqn:E
  | H : context [match ?m !! ?k with _ => _ end] |- _ =>
      let E := fresh "E" in destruct (m !! k) eqn:E
  end.

Lemma validate_claims_raises (c : gmap string jvalue) (now : Z) (e : exn) :
  Jose.validate_claims c now = Raise e -> is_JWTError e = true.
Proof.
  unfold Jose.validate_claims, Jose.validate_iat, Jose.validate_nbf,
    Jose.validate_exp, Jose.validate_aud, Jose.validate_sub,
    Jose.validate_jti, Jose.validate_at_hash, bind.
  intros H.
  repeat (first [ case_lookup
                | match type of H with
                  | context [match Jose.numeric_date ?v with _ => _ end] =>
                      destruct (Jose.numeric_date v)
                  | context [if ?b then _ else _] => destruct b
                  end ]; simpl in H);
    try discriminate; inversion H; reflexivity.
Qed.

Lemma decode_raises (t : token) (key : string) (algs : list string)
    (now : Z) (e : exn) :
  Jose.decode t key algs now = Raise e -> is_JWTError e = true.
Proof.
  destruct t as [raw | alg p sig]; simpl.
  - intros H; inversion H; reflexivity.
  - destruct (negb _); [intros H; inversion H; reflexivity |].
    destruct (negb _); [intros H; inversion H; reflexivity |].
    unfold bind. destruct (Jose.validate_claims p now) as [[] | e'] eqn:V.
    + discriminate.
    + intros H; inversion H; subst. eapply validate_claims_raises; eauto.
Qed.

Lemma decode_returns_payload (t : token) (key : string) (algs : list string)
    (now : Z) (p : gmap string jvalue) :
  Jose.decode t key algs now = Return p ->
  exists alg, t = Compact alg p (Mac key alg p)
              /\ alg ∈ algs
              /\ Jose.validate_claims p now = Return tt.
Proof.
  destruct t as [raw | alg q sig]; simpl; [discriminate |].
  destruct (bool_decide (alg ∈ algs)) eqn:Ha; simpl; [| discriminate].
  destruct (bool_decide (sig = Mac key alg q)) eqn:Hs; simpl; [| discriminate].
  apply bool_decide_eq_true in Ha, Hs. subst sig.
  unfold bind.
  destruct (Jose.validate_claims q now) as [[] |] eqn:V; [| discriminate].
  intros H; inversion H; subst. exists alg. repeat split; done.
Qed.

Lemma validate_claims_ok (c : gmap string jvalue) (now : Z) :
  Jose.validate_claims c now = Return tt <->
  Jose.validate_iat c = Return tt /\ Jose.validate_nbf c now = Return tt
  /\ Jose.validate_exp c now = Return tt /\ Jose.validate_aud c = Return tt
  /\ Jose.validate_sub c = Return tt /\ Jose.validate_jti c = Return tt
  /\ Jose.validate_at_hash c = Return tt.
Proof.
  unfold Jose.validate_claims, bind. split.
  - destruct (Jose.validate_iat c) as [[] |]; [| discriminate].
    destruct (Jose.validate_nbf c now) as [[] |]; [| discriminate].
    destruct (Jose.validate_exp c now) as [[] |]; [| discriminate].
    destruct (Jose.validate_aud c) as [[] |]; [| discriminate].
    destruct (Jose.validate_sub c) as [[] |]; [| discriminate].
    destruct (Jose.validate_jti c) as [[] |]; [| discriminate].
    intros ->. repeat split.
  - intros (-> & -> & -> & -> & -> & -> & ->). reflexivity.
Qed.

(** A verified claim set has a string subject, or none. *)
Lemma validate_sub_ok (c : gmap string jvalue) :
  Jose.validate_sub c = Return tt ->
  c !! "sub" = None \/ exists s, c !! "sub" = Some (JStr s).
Proof.
  unfold Jose.validate_sub. destruct (c !! "sub") as [[] |]; simpl;
    try discriminate; eauto.
Qed.

(** ** Verify token *)

Lemma verify_token_returns (settings : Settings) (t : token) (now : Z) :
  verify_token settings t now = Return None
  \/ exists alg p, t = Compact alg p (Mac (SECRET_KEY settings) alg p)
       /\ alg = ALGORITHM settings
       /\ Jose.validate_claims p now = Return tt
       /\ verify_token settings t now = Return (Some p).
Proof.
  unfold verify_token.
  destruct (Jose.decode t (SECRET_KEY settings) [ALGORITHM settings] now)
    as [p | e] eqn:D.
  - right. apply decode_returns_payload in D as (alg & -> & Hin & V).
    exists alg, p. apply list_elem_of_singleton in Hin. done.
  - left. apply decode_raises in D. rewrite D. reflexivity.
Qed.

(** C6.  [verify_token] always returns: the decoded claim set of a token, or
    the absent result; never an exception.  It returns the absent result for
    a malformed token, for one whose signature does not verify under the
    configured key, and for an expired one. *)
Theorem verify_token_never_raises (settings : Settings) (t : token) (now : Z) :
  (verify_token settings t now = Return None
   \/ exists alg p sig, t = Compact alg p sig
        /\ verify_token settings t now = Return (Some p))
  /\ (malformed t \/ signature_invalid settings t \/ expired t now ->
      verify_token settings t now = Return None).
Proof.
  destruct (verify_token_returns settings t now)
    as [H | (alg & p & -> & Ha & V & H)].
  - split; [left | intros _]; exact H.
  - split; [right; eauto |].
    intros [[] | [Hs | (e & He & Hlt)]].
    + simpl in Hs. congruence.
    + apply validate_claims_ok in V as (_ & _ & V & _).
      unfold Jose.validate_exp in V. rewrite He in V. simpl in V.
      destruct (e <? now) eqn:L; [discriminate | ].
      apply Z.ltb_ge in L. lia.
Qed.

Example verify_token_never_raises_witness :
  verify_token (default_settings "k")
    (Compact "HS256" {[ "sub" := JStr "u1" ]} (Mac "other" "HS256" {[ "sub" := JStr "u1" ]}))
    0 = Return None.
Proof.
  apply (proj2 (verify_token_never_raises (default_settings "k")
    (Compact "HS256" {[ "sub" := JStr "u1" ]}
       (Mac "other" "HS256" {[ "sub" := JStr "u1" ]})) 0)).
  right; left. simpl. intros H; inversion H.
Defined.

(** ** Issue, then verify *)

(** *** When a token is made *)

Lemma timedelta_ok (n : Z) :
  - Datetime.max_days * 86400 <= n < (Datetime.max_days + 1) * 86400 ->
  Datetime.timedelta n = Return n.
Proof.
  intros H. unfold Datetime.timedelta.
  rewrite (proj2 (Z.leb_le _ _)) by lia.
  rewrite (proj2 (Z.ltb_lt _ _)) by lia. reflexivity.
Qed.

Lemma timedelta_inv (n x : Z) :
  Datetime.timedelta n = Return x -> x = n.
Proof.
  unfold Datetime.timedelta. destruct (_ && _); [| discriminate].
  intros H; inversion H; reflexivity.
Qed.

Lemma datetime_add_ok (d delta : Z) :
  representable (d + delta) -> Datetime.add d delta = Return (d + delta).
Proof.
  intros [H1 H2]. unfold Datetime.add.
  rewrite (proj2 (Z.leb_le _ _) H1), (proj2 (Z.leb_le _ _) H2). reflexivity.
Qed.

Lemma datetime_add_inv (d delta x : Z) :
  Datetime.add d delta = Return x -> x = d + delta /\ representable x.
Proof.
  unfold Datetime.add.
  destruct (Datetime.min_time <=? d + delta) eqn:L1; [| discriminate].
  destruct (d + delta <=? Datetime.max_time) eqn:L2; [| discriminate].
  intros H; inversion H; subst x. split; [reflexivity |].
  apply Z.leb_le in L1, L2. split; assumption.
Qed.


(** Between two datetimes lies less than a [timedelta] can hold. *)
Lemma representable_span (a b : Z) :
  representable a -> representable b ->
  - Datetime.max_days * 86400 <= b - a < (Datetime.max_days + 1) * 86400.
Proof.
  unfold representable, Datetime.min_time, Datetime.max_time,
    Datetime.max_days. lia.
Qed.

Lemma default_access_expiry_ok (settings : Settings) (now : Z) :
  representable now ->
  representable (now + ACCESS_TOKEN_EXPIRE_MINUTES settings * 60) ->
  default_access_expiry settings now
  = Return (now + ACCESS_TOKEN_EXPIRE_MINUTES settings * 60).
Proof.
  intros Hn Hx. unfold default_access_expiry, bind.
  rewrite timedelta_ok.
  - apply datetime_add_ok, Hx.
  - pose proof (representable_span _ _ Hn Hx). lia.
Qed.

Lemma default_access_expiry_inv (settings : Settings) (now x : Z) :
  default_access_expiry settings now = Return x ->
  x = now + ACCESS_TOKEN_EXPIRE_MINUTES settings * 60 /\ representable x.
Proof.
  unfold default_access_expiry, bind.
  destruct (Datetime.timedelta _) as [d |] eqn:T; [| discriminate].
  apply timedelta_inv in T. subst d. apply datetime_add_inv.
Qed.

Lemma datetime_raises (d delta : Z) (e : exn) :
  Datetime.add d delta = Raise e -> e = OverflowError.
Proof.
  unfold Datetime.add. destruct (_ && _); [discriminate |].
  intros H; inversion H; reflexivity.
Qed.

Lemma timedelta_raises (n : Z) (e : exn) :
  Datetime.timedelta n = Raise e -> e = OverflowError.
Proof.
  unfold Datetime.timedelta. destruct (_ && _); [discriminate |].
  intros H; inversion H; reflexivity.
Qed.

Lemma default_access_expiry_raises (settings : Settings) (now : Z) (e : exn) :
  default_access_expiry settings now = Raise e -> e = OverflowError.
Proof.
  unfold default_access_expiry, bind.
  destruct (Datetime.timedelta _) as [d |] eqn:T.
  - apply datetime_raises.
  - intros H; inversion H; subst. exact (timedelta_raises _ _ T).
Qed.

(** A token that [create_access_token] returned: the claim set it signed
    and the expiry it wrote. *)
Lemma create_access_token_inv (settings : Settings)
    (data : gmap string jvalue) (expires_delta : option Z) (now : Z)
    (t : token) :
  create_access_token settings data expires_delta now = Return t ->
  exists x,
    t = Jose.encode (<["type" := JStr "access"]> (<["exp" := JNum x]> data))
          (SECRET_KEY settings) (ALGORITHM settings)
    /\ representable x
    /\ x = match expires_delta with
           | Some d => if d =? 0
                       then now + ACCESS_TOKEN_EXPIRE_MINUTES settings * 60
                       else now + d
           | None => now + ACCESS_TOKEN_EXPIRE_MINUTES settings * 60
           end.
Proof.
  unfold create_access_token, bind.
  destruct expires_delta as [d |]; [destruct (d =? 0) |].
  - destruct (default_access_expiry settings now) as [x |] eqn:E; [| discriminate].
    apply default_access_expiry_inv in E as [-> Hx].
    intros H; inversion H. eexists.
    split; [reflexivity |]. split; [exact Hx | reflexivity].
  - destruct (Datetime.add now d) as [x |] eqn:E; [| discriminate].
    apply datetime_add_inv in E as [-> Hx].
    intros H; inversion H. eexists.
    split; [reflexivity |]. split; [exact Hx | reflexivity].
  - destruct (default_access_expiry settings now) as [x |] eqn:E; [| discriminate].
    apply default_access_expiry_inv in E as [-> Hx].
    intros H; inversion H. eexists.
    split; [reflexivity |]. split; [exact Hx | reflexivity].
Qed.

(** [create_access_token] raises nothing but [OverflowError]. *)
Lemma create_access_token_raises (settings : Settings)
    (data : gmap string jvalue) (expires_delta : option Z) (now : Z)
    (e : exn) :
  create_access_token settings data expires_delta now = Raise e ->
  e = OverflowError.
Proof.
  unfold create_access_token, bind.
  destruct expires_delta as [d |]; [destruct (d =? 0) |].
  - destruct (default_access_expiry settings now) eqn:E; [discriminate |].
    intros H; inversion H; subst. exact (default_access_expiry_raises _ _ _ E).
  - destruct (Datetime.add now d) eqn:E; [discriminate |].
    intros H; inversion H; subst. exact (datetime_raises _ _ _ E).
  - destruct (default_access_expiry settings now) eqn:E; [discriminate |].
    intros H; inversion H; subst. exact (default_access_expiry_raises _ _ _ E).
Qed.

(** With the default lifetime a token is made whenever the clock and the
    expiry are datetimes. *)
Lemma create_access_token_default (settings : Settings)
    (data : gmap string jvalue) (now : Z) :
  representable now ->
  representable (now + ACCESS_TOKEN_EXPIRE_MINUTES settings * 60) ->
  create_access_token settings data None now
  = Return (Jose.encode
              (<["type" := JStr "access"]>
                 (<["exp" := JNum (now + ACCESS_TOKEN_EXPIRE_MINUTES settings * 60)]>
                    data))
              (SECRET_KEY settings) (ALGORITHM settings)).
Proof.
  intros Hn Hx. unfold create_access_token, bind.
  rewrite (default_access_expiry_ok settings now Hn Hx). reflexivity.
Qed.

Lemma create_refresh_token_inv (settings : Settings)
    (data : gmap string jvalue) (now : Z) (t : token) :
  create_refresh_token settings data now = Return t ->
  t = Jose.encode
        (<["type" := JStr "refresh"]>
           (<["exp" := JNum (now + REFRESH_TOKEN_EXPIRE_DAYS settings * 86400)]>
              data))
        (SECRET_KEY settings) (ALGORITHM settings)
  /\ representable (now + REFRESH_TOKEN_EXPIRE_DAYS settings * 86400).
Proof.
  unfold create_refresh_token, bind.
  destruct (Datetime.timedelta _) as [d |] eqn:T; [| discriminate].
  apply timedelta_inv in T. subst d.
  destruct (Datetime.add now _) as [x |] eqn:E; [| discriminate].
  apply datetime_add_inv in E as [-> Hx].
  intros H; inversion H. split; [reflexivity | exact Hx].
Qed.



(** *** What the decoder says to it *)







(** ** Look-ups in a table that satisfies its uniqueness constraints *)

Section Unique.

Context {K : Type} `{EqDecision K}.
Variable f : User.t -> option K.
Variable k : K.
Variable P : User.t -> bool.
Hypothesis P_spec : forall x, P x = true <-> f x = Some k.

Lemma filter_absent (l : list User.t) :
  k ∉ omap f l -> List.filter P l = [].
Proof.
  induction l as [| a l IH]; simpl; [reflexivity |].
  intros Hk. destruct (P a) eqn:Pa.
  - apply P_spec in Pa. rewrite Pa in Hk. exfalso. apply Hk. left.
  - apply IH. destruct (f a); [| exact Hk].
    intros Hin. apply Hk. right. exact Hin.
Qed.

Lemma scalar_one_or_none_unique (l : list User.t) :
  NoDup (omap f l) ->
  scalar_one_or_none (List.filter P l) = Return (List.find P l).
Proof.
  induction l as [| a l IH]; simpl; [reflexivity |].
  intros Hnd. destruct (P a) eqn:Pa.
  - apply P_spec in Pa. rewrite Pa in Hnd. apply NoDup_cons in Hnd as [Hk _].
    rewrite (filter_absent l Hk). reflexivity.
  - apply IH. destruct (f a); [| exact Hnd].
    apply NoDup_cons in Hnd as [_ Hnd]. exact Hnd.
Qed.

Lemma find_unique (l : list User.t) (u : User.t) :
  NoDup (omap f l) ->
  List.find P l = Some u <-> u ∈ l /\ f u = Some k.
Proof.
  intros Hnd. split.
  - intros H. apply find_some in H as [Hin Hp].
    split; [apply list_elem_of_In, Hin | apply P_spec, Hp].
  - intros [Hin Hk]. induction l as [| a l IH]; [inversion Hin |].
    simpl in *. destruct (P a) eqn:Pa.
    + apply P_spec in Pa. rewrite Pa in Hnd.
      apply NoDup_cons in Hnd as [Hk' _].
      apply elem_of_cons in Hin as [-> | Hin]; [reflexivity |].
      exfalso. apply Hk'. apply list_elem_of_omap. exists u. split; assumption.
    + apply elem_of_cons in Hin as [-> | Hin].
      * apply P_spec in Hk. congruence.
      * apply IH; [| exact Hin]. destruct (f a); [| exact Hnd].
        apply NoDup_cons in Hnd as [_ Hnd]. exact Hnd.
Qed.

Lemma find_none_iff (l : list User.t) :
  List.find P l = None <-> forall u, u ∈ l -> f u <> Some k.
Proof.
  split.
  - intros H u Hin Hk. apply list_elem_of_In in Hin.
    pose proof (find_none _ _ H u Hin) as Hp. simpl in Hp.
    apply P_spec in Hk. congruence.
  - intros H. destruct (List.find P l) as [u |] eqn:E; [| reflexivity].
    apply find_some in E as [Hin Hp]. exfalso.
    apply (H u); [apply list_elem_of_In, Hin | apply P_spec, Hp].
Qed.

End Unique.

Lemma omap_Some_map {B : Type} (g : User.t -> B) (l : list User.t) :
  omap (fun u => Some (g u)) l = map g l.
Proof. induction l as [| a l IH]; simpl; [reflexivity | f_equal; exact IH]. Qed.

Lemma get_user_by_id_str (s : string) (db : list User.t) :
  NoDup (map User.id db) ->
  get_user_by_id (JStr s) db
  = (Return (List.find (fun u => bool_decide (JStr (User.id u) = JStr s)) db), db).
Proof.
  intros Hnd. unfold get_user_by_id, io_bind, select_where, lift.
  rewrite (scalar_one_or_none_unique (fun u => Some (User.id u)) s).
  - reflexivity.
  - intros x. rewrite bool_decide_eq_true. split; congruence.
  - rewrite omap_Some_map. exact Hnd.
Qed.

Lemma find_by_id (s : string) (db : list User.t) (u : User.t) :
  NoDup (map User.id db) ->
  List.find (fun u => bool_decide (JStr (User.id u) = JStr s)) db = Some u
  <-> u ∈ db /\ User.id u = s.
Proof.
  intros Hnd.
  rewrite (find_unique (fun u => Some (User.id u)) s).
  - split; intros [? ?]; split; congruence.
  - intros x. rewrite bool_decide_eq_true. split; congruence.
  - rewrite omap_Some_map. exact Hnd.
Qed.

Lemma find_by_id_none (s : string) (db : list User.t) :
  List.find (fun u => bool_decide (JStr (User.id u) = JStr s)) db = None
  <-> forall u, u ∈ db -> User.id u <> s.
Proof.
  rewrite (find_none_iff (fun u => Some (User.id u)) s).
  - split; intros H u Hin; specialize (H u Hin); congruence.
  - intros x. rewrite bool_decide_eq_true. split; congruence.
Qed.

Lemma get_user_by_id_null (db : list User.t) :
  get_user_by_id JNull db = (Return None, db).
Proof.
  unfold get_user_by_id, io_bind, select_where, lift.
  replace (List.filter _ db) with (@nil User.t); [reflexivity |].
  induction db as [| a l IH]; simpl; [reflexivity | exact IH].
Qed.

Lemma bad_payload_false (p : gmap string jvalue) (kind : string) :
  bad_payload (Some p) kind = false <-> p !! "type" = Some (JStr kind).
Proof.
  unfold bad_payload, dict_get. split.
  - intros H. apply orb_false_iff in H as [_ H].
    apply negb_false_iff, bool_decide_eq_true in H.
    destruct (p !! "type") as [v |]; simpl in H; congruence.
  - intros H. rewrite H. simpl. apply orb_false_iff. split.
    + apply bool_decide_eq_false. intros ->. rewrite lookup_empty in H.
      discriminate.
    + apply negb_false_iff, bool_decide_eq_true. reflexivity.
Qed.

(** ** Resolve current user *)

(** C4.  In a table that satisfies its primary-key constraint,
    [get_current_user] never raises and leaves the table alone; it gives the
    absent result when the token does not verify, its type is not "access",
    it has no subject, no user carries the subject as id, or that user is
    inactive; in every other case it gives the user whose id is the subject,
    and that user is active. *)
Theorem get_current_user_spec (settings : Settings) (db : list User.t)
    (t : token) (now : Z) :
  NoDup (map User.id db) ->
  Forall (fun u => User.id u <> "") db ->
  (no_current_user settings db t now ->
   get_current_user settings t now db = (Return None, db))
  /\ (~ no_current_user settings db t now ->
      exists p u, verify_token settings t now = Return (Some p)
        /\ p !! "type" = Some (JStr "access")
        /\ p !! "sub" = Some (JStr (User.id u))
        /\ u ∈ db /\ User.is_active u = true
        /\ get_current_user settings t now db = (Return (Some u), db)).
Proof.
  intros Hnd Hne. unfold no_current_user, get_current_user, io_bind, lift.
  destruct (verify_token_returns settings t now)
    as [-> | (alg & p & _ & _ & V & ->)].
  { split; [reflexivity | intros H; exfalso; apply H; left; reflexivity]. }
  change (default ∅ (Some p)) with p.
  apply validate_claims_ok in V as (_ & _ & _ & _ & V & _).
  destruct (bad_payload (Some p) "access") eqn:B.
  { assert (Ht : p !! "type" <> Some (JStr "access")).
    { intros Ht. apply bad_payload_false in Ht. congruence. }
    split; [reflexivity |]. intros H. exfalso. apply H. right. exists p. auto. }
  apply bad_payload_false in B.
  unfold dict_get.
  destruct (validate_sub_ok p V) as [S | [s S]]; rewrite S;
    cbn [default from_option id truthy negb].
  { split; [reflexivity |]. intros H. exfalso. apply H. right. exists p. auto. }
  destruct (String.eqb s "") eqn:Es; cbn [negb].
  { apply String.eqb_eq in Es. subst s. split; [reflexivity |].
    intros H. exfalso. apply H. right. exists p. split; [reflexivity |].
    right; right; left. intros u Hin Hu.
    rewrite Forall_forall in Hne. apply (Hne u Hin). congruence. }
  rewrite (get_user_by_id_str s db Hnd).
  destruct (List.find _ db) as [u |] eqn:F.
  - apply (find_by_id s db u Hnd) in F as [Hin Hid].
    destruct (User.is_active u) eqn:Act.
    + split.
      * intros [H | (q & Hq & [H | [H | [H | (u' & Hin' & Hs' & Hact')]]])];
          try discriminate; inversion Hq; subst q.
        -- congruence.
        -- congruence.
        -- exfalso. apply (H u Hin). congruence.
        -- assert (F' : List.find (fun u => bool_decide (JStr (User.id u) = JStr s)) db
                         = Some u')
             by (apply find_by_id; [exact Hnd | split; congruence]).
           assert (F : List.find (fun u => bool_decide (JStr (User.id u) = JStr s)) db
                        = Some u)
             by (apply find_by_id; [exact Hnd | split; congruence]).
           congruence.
      * intros _. exists p, u. subst s. repeat split; assumption.
    + split; [reflexivity |]. intros H. exfalso. apply H. right. exists p.
      split; [reflexivity |]. right; right; right. exists u. subst s. auto.
  - split; [reflexivity |]. intros H. exfalso. apply H. right. exists p.
    split; [reflexivity |]. right; right; left. intros u Hin Hu.
    apply (proj1 (find_by_id_none s db) F u Hin). congruence.
Qed.

(** ** Refresh access token *)


(** ** Writes to a well-formed table *)

Lemma NoDup_omap_inj {K : Type} (f : User.t -> option K) (l : list User.t)
    (x y : User.t) (k : K) :
  NoDup (omap f l) -> x ∈ l -> y ∈ l -> f x = Some k -> f y = Some k -> x = y.
Proof.
  induction l as [| a l IH]; intros Hnd Hx Hy Fx Fy; [inversion Hx |].
  simpl in Hnd.
  apply elem_of_cons in Hx as [-> | Hx]; apply elem_of_cons in Hy as [-> | Hy].
  - reflexivity.
  - rewrite Fx in Hnd. apply NoDup_cons in Hnd as [Hk _]. exfalso. apply Hk.
    apply list_elem_of_omap. exists y. split; assumption.
  - rewrite Fy in Hnd. apply NoDup_cons in Hnd as [Hk _]. exfalso. apply Hk.
    apply list_elem_of_omap. exists x. split; assumption.
  - apply IH; try assumption. destruct (f a); [| exact Hnd].
    apply NoDup_cons in Hnd as [_ Hnd]. exact Hnd.
Qed.

Lemma same_identity_true (a b : option string) :
  same_identity a b = true -> exists k, a = Some k /\ b = Some k.
Proof.
  destruct a as [k |]; simpl; [| discriminate].
  intros H. apply bool_decide_eq_true in H. exists k. split; congruence.
Qed.

(** Two different rows of a well-formed table never conflict. *)
Lemma wf_no_conflict (db : list User.t) (u r : User.t) :
  db_wf db -> u ∈ db -> r ∈ db -> User.id r <> User.id u ->
  conflicts r u = false.
Proof.
  intros [Hid _ Hem Hg Ht Hh] Hu Hr Hne.
  assert (Hru : r <> u) by congruence.
  unfold conflicts. repeat (apply orb_false_iff; split).
  - apply bool_decide_eq_false. intros E. apply Hru.
    assert (Hem' : NoDup (omap (fun u => Some (User.email u)) db))
      by (rewrite omap_Some_map; exact Hem).
    apply (NoDup_omap_inj _ db r u (User.email u) Hem' Hr Hu);
      [congruence | reflexivity].
  - destruct (same_identity (User.google_id r) (User.google_id u)) eqn:E;
      [| reflexivity].
    apply same_identity_true in E as (k & E1 & E2). exfalso. apply Hru.
    exact (NoDup_omap_inj User.google_id db r u k Hg Hr Hu E1 E2).
  - destruct (same_identity (User.telegram_id r) (User.telegram_id u)) eqn:E;
      [| reflexivity].
    apply same_identity_true in E as (k & E1 & E2). exfalso. apply Hru.
    exact (NoDup_omap_inj User.telegram_id db r u k Ht Hr Hu E1 E2).
  - destruct (same_identity (User.github_id r) (User.github_id u)) eqn:E;
      [| reflexivity].
    apply same_identity_true in E as (k & E1 & E2). exfalso. apply Hru.
    exact (NoDup_omap_inj User.github_id db r u k Hh Hr Hu E1 E2).
Qed.

(** Linking an identity that no row carries yet conflicts with no other
    row. *)
Lemma wf_no_conflict_link (db : list User.t) (u r : User.t) (g : string) :
  db_wf db -> u ∈ db -> r ∈ db -> User.id r <> User.id u ->
  (forall x, x ∈ db -> User.google_id x <> Some g) ->
  conflicts r (User.set_google_id (Some g) u) = false.
Proof.
  intros Hwf Hu Hr Hne Hg.
  pose proof (wf_no_conflict db u r Hwf Hu Hr Hne) as C.
  unfold conflicts in *. simpl.
  apply orb_false_iff in C as [C C4]. apply orb_false_iff in C as [C C3].
  apply orb_false_iff in C as [C1 _].
  rewrite C1, C3, C4. simpl. rewrite !orb_false_r.
  destruct (same_identity (User.google_id r) (Some g)) eqn:E; [| reflexivity].
  apply same_identity_true in E as (k & E1 & E2). exfalso.
  apply (Hg r Hr). congruence.
Qed.

Lemma update_row_ok (db : list User.t) (loaded current : User.t) (now : Z) :
  (forall r, r ∈ db -> User.id r <> User.id loaded -> conflicts r current = false) ->
  update_row loaded current now db
  = if bool_decide (current = loaded) then (Return loaded, db)
    else (Return (User.set_updated_at (Some now) current),
          replace_by_id (User.id loaded)
            (User.set_updated_at (Some now) current) db).
Proof.
  intros Hc. unfold update_row.
  destruct (bool_decide (current = loaded)); [reflexivity |].
  destruct (existsb _ db) eqn:E; [| reflexivity].
  apply existsb_exists in E as (r & Hin & Hr).
  apply andb_true_iff in Hr as [Hid Hr].
  apply negb_true_iff, bool_decide_eq_false in Hid.
  rewrite (Hc r) in Hr; [discriminate | apply list_elem_of_In, Hin | exact Hid].
Qed.

Lemma replace_by_id_ids (k : string) (u' : User.t) (db : list User.t) :
  User.id u' = k -> map User.id (replace_by_id k u' db) = map User.id db.
Proof.
  intros Hk. unfold replace_by_id. induction db as [| a l IH]; simpl;
    [reflexivity |].
  rewrite IH. f_equal. destruct (bool_decide (User.id a = k)) eqn:E;
    [| reflexivity].
  apply bool_decide_eq_true in E. congruence.
Qed.

Lemma replace_by_id_in (k : string) (u' u : User.t) (db : list User.t) :
  u ∈ db -> User.id u = k -> u' ∈ replace_by_id k u' db.
Proof.
  intros Hin Hk. unfold replace_by_id. apply list_elem_of_fmap.
  exists u. split; [| exact Hin].
  rewrite bool_decide_eq_true_2 by exact Hk. reflexivity.
Qed.

Lemma replace_by_id_other (k : string) (u' r : User.t) (db : list User.t) :
  User.id u' = k -> User.id r <> k ->
  r ∈ replace_by_id k u' db <-> r ∈ db.
Proof.
  intros Hk Hr. unfold replace_by_id. rewrite list_elem_of_fmap. split.
  - intros (x & -> & Hx). destruct (bool_decide (User.id x = k)); [| exact Hx].
    congruence.
  - intros Hin. exists r. split; [| exact Hin].
    rewrite bool_decide_eq_false_2 by exact Hr. reflexivity.
Qed.

Lemma get_user_by_google_id_some (g : string) (db : list User.t) :
  NoDup (omap User.google_id db) ->
  get_user_by_google_id (Some g) db
  = (Return (List.find (fun u => bool_decide (User.google_id u = Some g)) db), db).
Proof.
  intros Hnd. unfold get_user_by_google_id, io_bind, select_where, lift.
  rewrite (scalar_one_or_none_unique User.google_id g); [reflexivity | | exact Hnd].
  intros x. apply bool_decide_eq_true.
Qed.

Lemma get_user_by_email_some (e : string) (db : list User.t) :
  NoDup (map User.email db) ->
  get_user_by_email (Some e) db
  = (Return (List.find (fun u => bool_decide (Some (User.email u) = Some e)) db), db).
Proof.
  intros Hnd. unfold get_user_by_email, io_bind, select_where, lift.
  rewrite (scalar_one_or_none_unique (fun u => Some (User.email u)) e).
  - reflexivity.
  - intros x. apply bool_decide_eq_true.
  - rewrite omap_Some_map. exact Hnd.
Qed.

(** ** Google sign-in: which row is used, and what is written to it *)

Lemma stamp_login_profile (now : Z) (u : User.t) :
  same_profile u (stamp_login now u)
  /\ User.google_id (stamp_login now u) = User.google_id u
  /\ User.last_login (stamp_login now u) = Some now.
Proof.
  unfold stamp_login, same_profile. repeat split.
Qed.

Lemma link_google_profile (g : string) (now : Z) (u : User.t) :
  same_profile u (link_google g now u)
  /\ User.google_id (link_google g now u) = Some g
  /\ User.updated_at (link_google g now u) = Some now
  /\ User.last_login (link_google g now u) = User.last_login u.
Proof. unfold link_google, same_profile. repeat split. Qed.

Lemma same_profile_trans (a b c : User.t) :
  same_profile a b -> same_profile b c -> same_profile a c.
Proof.
  unfold same_profile.
  intros (?&?&?&?&?&?&?&?&?&?&?&?&?) (?&?&?&?&?&?&?&?&?&?&?&?&?).
  repeat split; congruence.
Qed.

Lemma wf_unique_by_id (db : list User.t) (u r : User.t) :
  NoDup (map User.id db) -> u ∈ db -> r ∈ db -> User.id r = User.id u -> r = u.
Proof.
  intros Hnd Hu Hr E.
  apply (NoDup_omap_inj (fun u => Some (User.id u)) db r u (User.id u));
    [rewrite omap_Some_map; exact Hnd | exact Hr | exact Hu | congruence
    | reflexivity].
Qed.

Lemma replace_by_id_same (db : list User.t) (u : User.t) :
  NoDup (map User.id db) -> u ∈ db -> replace_by_id (User.id u) u db = db.
Proof.
  intros Hnd Hu. unfold replace_by_id.
  rewrite <- (map_id db) at 2. apply map_ext_in. intros r Hr.
  destruct (bool_decide (User.id r = User.id u)) eqn:E; [| reflexivity].
  apply bool_decide_eq_true in E. symmetry.
  apply (wf_unique_by_id db u r Hnd Hu); [apply list_elem_of_In, Hr | exact E].
Qed.

Lemma replace_by_id_twice (k : string) (a b : User.t) (db : list User.t) :
  User.id a = k ->
  replace_by_id k b (replace_by_id k a db) = replace_by_id k b db.
Proof.
  intros Ha. unfold replace_by_id. rewrite map_map. apply map_ext. intros r.
  destruct (bool_decide (User.id r = k)) eqn:E; [| rewrite E; reflexivity].
  rewrite bool_decide_eq_true_2 by exact Ha. reflexivity.
Qed.

Lemma update_user_login_ok (db : list User.t) (u : User.t) (now : Z) :
  update_user_login u now db
  = (Return (stamp_login now u), replace_by_id (User.id u) (stamp_login now u) db).
Proof. reflexivity. Qed.

Lemma insert_row_ok (db : list User.t) (u : User.t) :
  (forall r, r ∈ db -> User.id r <> User.id u /\ conflicts r u = false) ->
  insert_row u db = (Return u, db ++ [u]).
Proof.
  intros H. unfold insert_row. destruct (existsb _ db) eqn:E; [| reflexivity].
  apply existsb_exists in E as (r & Hin & Hr).
  destruct (H r (proj2 (list_elem_of_In _ _) Hin)) as [Hid Hc].
  rewrite Hc, orb_false_r in Hr. apply bool_decide_eq_true in Hr. congruence.
Qed.

(** Rewriting the row that was just appended under a fresh key. *)
Lemma replace_by_id_appended (db : list User.t) (u u' : User.t) :
  User.id u ∉ map User.id db ->
  replace_by_id (User.id u) u' (db ++ [u]) = db ++ [u'].
Proof.
  intros Hfresh. unfold replace_by_id. rewrite map_app. simpl.
  rewrite bool_decide_eq_true_2 by reflexivity. f_equal.
  rewrite <- (map_id db) at 2. apply map_ext_in. intros r Hr.
  rewrite bool_decide_eq_false_2; [reflexivity |].
  intros E. apply Hfresh. rewrite <- E. apply list_elem_of_fmap.
  exists r. split; [reflexivity | apply list_elem_of_In; exact Hr].
Qed.

(** The three ways [resolve_google_user] runs on a well-formed table, for
    an identity that carries a subject and an email. *)
Lemma resolve_google_user_cases (db : list User.t) (gd : GoogleData)
    (g e : string) (now : Z) (uuid : string) :
  db_wf db ->
  gd_google_id gd = Some g -> gd_email gd = Some e ->
  uuid ∉ map User.id db ->
  (exists u, u ∈ db /\ User.google_id u = Some g
     /\ resolve_google_user gd now uuid db
        = (Return (stamp_login now u),
           replace_by_id (User.id u) (stamp_login now u) db))
  \/ (exists u, (forall x, x ∈ db -> User.google_id x <> Some g)
        /\ u ∈ db /\ User.email u = e
        /\ resolve_google_user gd now uuid db
           = (Return (stamp_login now (link_google g now u)),
              replace_by_id (User.id u)
                (stamp_login now (link_google g now u)) db))
  \/ ((forall x, x ∈ db -> User.google_id x <> Some g)
      /\ (forall x, x ∈ db -> User.email x <> e)
      /\ resolve_google_user gd now uuid db
         = (Return (stamp_login now (new_user_from_google gd e now uuid)),
            db ++ [stamp_login now (new_user_from_google gd e now uuid)])).
Proof.
  intros Hwf Hg He Hfresh.
  pose proof Hwf as [Hid _ Hem Hgid _ _].
  unfold resolve_google_user, io_bind. rewrite Hg, He.
  rewrite (get_user_by_google_id_some g db Hgid).
  destruct (List.find _ db) as [u |] eqn:Fg.
  - (* step 1 *)
    apply (find_unique User.google_id g) in Fg as [Hu Hug];
      [| intros x; apply bool_decide_eq_true | exact Hgid].
    left. exists u. repeat split; try assumption.
  - assert (Hnog : forall x, x ∈ db -> User.google_id x <> Some g).
    { exact (proj1 (find_none_iff User.google_id g _
                      (fun x => bool_decide_eq_true _) db) Fg). }
    rewrite (get_user_by_email_some e db Hem).
    destruct (List.find (fun u => bool_decide (Some (User.email u) = Some e)) db)
      as [u |] eqn:Fe.
    + (* step 2 *)
      apply (find_unique (fun u => Some (User.email u)) e) in Fe as [Hu Hue];
        [| intros x; apply bool_decide_eq_true
         | rewrite omap_Some_map; exact Hem].
      right; left. exists u. repeat split; try assumption; [congruence |].
      rewrite update_row_ok
        by (intros r Hr Hne; exact (wf_no_conflict_link db u r g Hwf Hu Hr Hne Hnog)).
      rewrite bool_decide_eq_false_2.
      2:{ intros E. apply (Hnog u Hu). rewrite <- E. reflexivity. }
      fold (link_google g now u).
      assert (Hidl : User.id (link_google g now u) = User.id u) by reflexivity.
      rewrite update_user_login_ok.
      rewrite Hidl. rewrite replace_by_id_twice by exact Hidl. reflexivity.
    + (* step 3 *)
      assert (Hnoe : forall x, x ∈ db -> User.email x <> e).
      { intros x Hx Hxe.
        apply (proj1 (find_none_iff (fun u => Some (User.email u)) e _
                 (fun x => bool_decide_eq_true _) db) Fe x Hx).
        congruence. }
      right; right. repeat split; try assumption.
      unfold create_user_from_google. rewrite He.
      set (new := new_user_from_google gd e now uuid).
      rewrite insert_row_ok.
      * rewrite update_user_login_ok.
        rewrite (replace_by_id_appended db new (stamp_login now new) Hfresh).
        reflexivity.
      * intros r Hr. split.
        -- intros E. apply Hfresh. apply list_elem_of_fmap. exists r.
           split; [symmetry; exact E | exact Hr].
        -- unfold conflicts, new. simpl. rewrite Hg.
           rewrite (bool_decide_eq_false_2 _ (Hnoe r Hr)).
           destruct (same_identity (User.google_id r) (Some g)) eqn:E.
           { apply same_identity_true in E as (k & E1 & E2).
             exfalso. apply (Hnog r Hr). congruence. }
           destruct (User.telegram_id r), (User.github_id r); reflexivity.
Qed.

(** C2.  On a well-formed table, for a Google identity [g] with email [e],
    [resolve_google_user] returns a row [u'] of the new table whose
    [last_login] is [now] (step 4), and
    - if a row carries [g], [u'] is that row (step 1);
    - otherwise, if a row has the email [e], [u'] is that row with [g]
      linked, and the table has the same rows as before: no second record
      (step 2);
    - otherwise exactly one row is added: the new user, with [is_verified]
      from the provider's flag and [last_login = now], as the UPDATE of
      step 4 leaves it (step 3). *)
Theorem google_user_resolution (db : list User.t) (gd : GoogleData)
    (g e : string) (now : Z) (uuid : string) :
  db_wf db ->
  gd_google_id gd = Some g -> gd_email gd = Some e ->
  uuid ∉ map User.id db ->
  exists u' db',
    resolve_google_user gd now uuid db = (Return u', db')
    /\ u' ∈ db' /\ User.last_login u' = Some now
    /\ (forall u, u ∈ db -> User.google_id u = Some g ->
          same_profile u u' /\ User.google_id u' = Some g
          /\ map User.id db' = map User.id db)
    /\ ((forall x, x ∈ db -> User.google_id x <> Some g) ->
        forall u, u ∈ db -> User.email u = e ->
          same_profile u u' /\ User.google_id u' = Some g
          /\ map User.id db' = map User.id db)
    /\ ((forall x, x ∈ db -> User.google_id x <> Some g) ->
        (forall x, x ∈ db -> User.email x <> e) ->
          db' = db ++ [u']
          /\ u' = stamp_login now (new_user_from_google gd e now uuid)
          /\ User.id u' = uuid /\ User.email u' = e
          /\ User.google_id u' = Some g
          /\ User.is_verified u' = gd_email_verified gd
          /\ User.last_login u' = Some now).
Proof.
  intros Hwf Hg He Hfresh.
  pose proof Hwf as [Hid _ Hem Hgid _ _].
  destruct (resolve_google_user_cases db gd g e now uuid Hwf Hg He Hfresh)
    as [(u0 & Hu0 & Hg0 & R) | [(u0 & Hnog & Hu0 & He0 & R) | (Hnog & Hnoe & R)]];
    rewrite R; eexists; eexists; (split; [reflexivity |]).
  - destruct (stamp_login_profile now u0) as (Hp & Hsg & Hl).
    assert (Hsid : User.id (stamp_login now u0) = User.id u0) by apply Hp.
    split; [apply (replace_by_id_in _ _ u0); [exact Hu0 | reflexivity] |].
    split; [exact Hl |]. split; [| split].
    + intros u Hu Hug.
      assert (u = u0) by exact (NoDup_omap_inj _ db u u0 g Hgid Hu Hu0 Hug Hg0).
      subst u. split; [exact Hp |]. split; [congruence |].
      apply replace_by_id_ids. exact Hsid.
    + intros Hnog. exfalso. exact (Hnog u0 Hu0 Hg0).
    + intros Hnog. exfalso. exact (Hnog u0 Hu0 Hg0).
  - destruct (link_google_profile g now u0) as (Hp1 & Hlg & _ & _).
    destruct (stamp_login_profile now (link_google g now u0)) as (Hp2 & Hsg & Hl).
    pose proof (same_profile_trans _ _ _ Hp1 Hp2) as Hp.
    assert (Hsid : User.id (stamp_login now (link_google g now u0)) = User.id u0)
      by apply Hp.
    split; [apply (replace_by_id_in _ _ u0); [exact Hu0 | reflexivity] |].
    split; [exact Hl |]. split; [| split].
    + intros u Hu Hug. exfalso. exact (Hnog u Hu Hug).
    + intros _ u Hu Hue.
      assert (Hem' : NoDup (omap (fun u => Some (User.email u)) db))
        by (rewrite omap_Some_map; exact Hem).
      assert (u = u0).
      { apply (NoDup_omap_inj _ db u u0 e Hem' Hu Hu0); congruence. }
      subst u. split; [exact Hp |]. split; [congruence |].
      apply replace_by_id_ids. exact Hsid.
    + intros _ Hnoe. exfalso. exact (Hnoe u0 Hu0 He0).
  - split; [apply elem_of_app; right; apply list_elem_of_singleton; reflexivity |].
    split; [reflexivity |]. split; [| split].
    + intros u Hu Hug. exfalso. exact (Hnog u Hu Hug).
    + intros _ u Hu Hue. exfalso. exact (Hnoe u Hu Hue).
    + intros _ _. repeat split. exact Hg.
Qed.

(** C10, as the code has it.  When the sign-in finds no row with the Google
    identity but one with its email, that row is rewritten and no other: its
    [google_id] becomes the identity, its [last_login] and its [updated_at]
    become [now], and every other column keeps its value, whatever name,
    picture and verified flag the Google payload carries. *)
Theorem google_link_frame (db : list User.t) (gd : GoogleData)
    (g e : string) (now : Z) (uuid : string) (u : User.t) :
  db_wf db ->
  gd_google_id gd = Some g -> gd_email gd = Some e ->
  uuid ∉ map User.id db ->
  (forall x, x ∈ db -> User.google_id x <> Some g) ->
  u ∈ db -> User.email u = e ->
  exists u',
    resolve_google_user gd now uuid db
    = (Return u', replace_by_id (User.id u) u' db)
    /\ same_profile u u'
    /\ User.google_id u' = Some g
    /\ User.last_login u' = Some now
    /\ User.updated_at u' = Some now
    /\ (forall r, User.id r <> User.id u ->
          r ∈ replace_by_id (User.id u) u' db <-> r ∈ db).
Proof.
  intros Hwf Hg He Hfresh Hnog Hu Hue.
  pose proof Hwf as [Hid _ Hem Hgid _ _].
  destruct (resolve_google_user_cases db gd g e now uuid Hwf Hg He Hfresh)
    as [(u0 & Hu0 & Hg0 & R) | [(u0 & _ & Hu0 & He0 & R) | (_ & Hnoe & R)]].
  - exfalso. exact (Hnog u0 Hu0 Hg0).
  - assert (Hem' : NoDup (omap (fun u => Some (User.email u)) db))
      by (rewrite omap_Some_map; exact Hem).
    assert (u = u0).
    { apply (NoDup_omap_inj _ db u u0 e Hem' Hu Hu0); congruence. }
    subst u0. exists (stamp_login now (link_google g now u)).
    destruct (link_google_profile g now u) as (Hp1 & Hlg & Hup & _).
    destruct (stamp_login_profile now (link_google g now u)) as (Hp2 & Hsg & Hl).
    pose proof (same_profile_trans _ _ _ Hp1 Hp2) as Hp.
    split; [exact R |]. split; [exact Hp |]. split; [congruence |].
    split; [exact Hl |]. split.
    + reflexivity.
    + intros r Hr. apply replace_by_id_other; [apply Hp | exact Hr].
  - exfalso. exact (Hnoe u Hu Hue).
Qed.

(** ** The sample table is well formed *)

Lemma sample_db_wf : db_wf sample_db.
Proof.
  split; apply (bool_decide_unpack _); vm_compute; exact I.
Qed.

Lemma sample_uuid_fresh : sample_uuid ∉ map User.id sample_db.
Proof. apply (bool_decide_unpack _). vm_compute. exact I. Qed.

Example google_user_resolution_witness :
  exists u' db',
    resolve_google_user (sample_data "google-carol" "carol@example.com")
      1000 sample_uuid sample_db = (Return u', db')
    /\ u' ∈ db' /\ User.last_login u' = Some 1000.
Proof.
  destruct (google_user_resolution sample_db
              (sample_data "google-carol" "carol@example.com")
              "google-carol" "carol@example.com" 1000 sample_uuid
              sample_db_wf eq_refl eq_refl sample_uuid_fresh)
    as (u' & db' & R & Hin & Hl & _).
  exists u', db'. repeat split; assumption.
Defined.

Example google_link_frame_witness :
  exists u',
    resolve_google_user (sample_data "google-alice" "alice@example.com")
      1000 sample_uuid sample_db
    = (Return u', replace_by_id (User.id alice) u' sample_db)
    /\ same_profile alice u'
    /\ User.google_id u' = Some "google-alice"
    /\ User.last_login u' = Some 1000
    /\ User.updated_at u' = Some 1000.
Proof.
  assert (Hnog : forall x, x ∈ sample_db -> User.google_id x <> Some "google-alice").
  { intros x Hx. unfold sample_db in Hx.
    repeat (apply elem_of_cons in Hx as [-> | Hx]); [discriminate .. | inversion Hx]. }
  assert (Hin : alice ∈ sample_db) by (unfold sample_db; left).
  destruct (google_link_frame sample_db
              (sample_data "google-alice" "alice@example.com")
              "google-alice" "alice@example.com" 1000 sample_uuid alice
              sample_db_wf eq_refl eq_refl sample_uuid_fresh Hnog Hin eq_refl)
    as (u' & R & Hp & Hg & Hl & Hup & _).
  exists u'. repeat split; try assumption; apply Hp.
Defined.

(** C10 as stated fails: linking changes a third column.  The sign-in of
    alice with a Google identity new to the table leaves her row with
    [updated_at = now], which was empty before. *)
Example google_link_touches_updated_at :
  exists u' db',
    resolve_google_user (sample_data "google-alice" "alice@example.com")
      1000 sample_uuid sample_db = (Return u', db')
    /\ User.id u' = User.id alice
    /\ User.google_id alice = None /\ User.google_id u' = Some "google-alice"
    /\ User.updated_at alice = None /\ User.updated_at u' = Some 1000.
Proof. eexists. eexists. vm_compute. repeat split. Qed.

Example get_current_user_spec_witness :
  let settings := default_settings "k" in
  exists t,
    create_access_token settings
      {[ "sub" := JStr (User.id bob); "email" := JStr (User.email bob) ]}
      None 1000 = Return t
    /\ get_current_user settings t 1000 sample_db = (Return None, sample_db).
Proof.
  eexists. split; [reflexivity |].
  apply (proj1 (get_current_user_spec (default_settings "k") sample_db _ 1000
                  (wf_ids _ sample_db_wf) (wf_ids_nonempty _ sample_db_wf))).
  right. eexists. split; [vm_compute; reflexivity |].
  right; right; right. exists bob. split; [| split; reflexivity].
  unfold sample_db. right. left.
Defined.


(** ** Google sign-in and inactive users *)

(** Whatever [is_active] says, a row found by its Google identity gets a
    token pair: [authenticate_with_google] never reads the column. *)
Lemma authenticate_with_google_ignores_is_active (settings : Settings)
    (google : string -> outcome IdInfo) (google_token : string)
    (db : list User.t) (gd : GoogleData) (g e : string) (u : User.t)
    (now : Z) (uuid : string) :
  db_wf db ->
  verify_google_token google google_token = Return gd ->
  gd_google_id gd = Some g -> gd_email gd = Some e ->
  uuid ∉ map User.id db ->
  u ∈ db -> User.google_id u = Some g ->
  forall access refresh,
    create_access_token settings
      {[ "sub" := JStr (User.id u); "email" := JStr (User.email u) ]} None now
    = Return access ->
    create_refresh_token settings {[ "sub" := JStr (User.id u) ]} now
    = Return refresh ->
    exists d db',
      authenticate_with_google settings google google_token now uuid db
      = (Return d, db')
      /\ d !! "access_token" = Some (RToken access)
      /\ d !! "refresh_token" = Some (RToken refresh).
Proof.
  intros Hwf Hv Hg He Hfresh Hu Hug access refresh Ha Hr.
  pose proof Hwf as [_ _ _ Hgid _ _].
  unfold authenticate_with_google, io_bind, lift. rewrite Hv.
  destruct (resolve_google_user_cases db gd g e now uuid Hwf Hg He Hfresh)
    as [(u0 & Hu0 & Hg0 & R) | [(u0 & Hnog & _) | (Hnog & _)]].
  - assert (u = u0) by exact (NoDup_omap_inj _ db u u0 g Hgid Hu Hu0 Hug Hg0).
    subst u0. rewrite R.
    destruct (stamp_login_profile now u) as ((Hi & Hm & _) & _).
    rewrite Hi, Hm, Ha, Hr. eexists. eexists. split; [reflexivity |].
    split; reflexivity.
  - exfalso. exact (Hnog u Hu Hug).
  - exfalso. exact (Hnog u Hu Hug).
Qed.

(** C1 at the failing input: bob is inactive, Google vouches for his token,
    and the sign-in returns an access token and a refresh token for him,
    while the same table refuses him on the other two paths. *)
Example google_sign_in_admits_inactive_user :
  let settings := default_settings "k" in
  bob ∈ sample_db /\ User.is_active bob = false
  /\ exists access refresh,
       create_access_token settings
         {[ "sub" := JStr (User.id bob); "email" := JStr (User.email bob) ]}
         None 1000 = Return access
       /\ create_refresh_token settings {[ "sub" := JStr (User.id bob) ]} 1000
          = Return refresh
       /\ (exists d db',
             authenticate_with_google settings sample_google "token-of-bob"
               1000 sample_uuid sample_db = (Return d, db')
             /\ d !! "access_token" = Some (RToken access)
             /\ d !! "refresh_token" = Some (RToken refresh)
             /\ d !! "token_type" = Some (RStr "bearer"))
       /\ fst (get_current_user settings access 1000 sample_db) = Return None
       /\ fst (refresh_access_token settings refresh 1000 sample_db)
          = Raise (AuthenticationError "User not found or inactive").
Proof.
  cbv zeta. split; [unfold sample_db; right; left |].
  split; [reflexivity |].
  eexists. eexists. split; [vm_compute; reflexivity |].
  split; [vm_compute; reflexivity |].
  split; [| split; vm_compute; reflexivity].
  eexists. eexists. split; [vm_compute; reflexivity |].
  repeat split; vm_compute; reflexivity.
Qed.

(** ** GET /auth/me *)

(** C7.  For a resolved caller the endpoint returns a dictionary whose keys
    are exactly the nine public fields; [google_id], [telegram_id],
    [github_id] and the other internal columns are no keys of it, and
    nothing of them flows into it: two rows that agree on the nine columns
    get the same answer. *)
Theorem me_returns_public_fields_only (u : User.t) :
  exists d,
    get_current_user_info (Some u) = Return d
    /\ dom d = public_fields
    /\ d !! "google_id" = None /\ d !! "telegram_id" = None
    /\ d !! "github_id" = None /\ d !! "is_active" = None
    /\ d !! "timezone" = None /\ d !! "country" = None
    /\ d !! "updated_at" = None
    /\ (forall v, same_public u v -> get_current_user_info (Some v) = Return d).
Proof.
  eexists. split; [reflexivity |].
  split; [unfold public_fields; rewrite !dom_insert_L, dom_singleton_L; set_solver |].
  repeat (split; [reflexivity |]).
  intros v (-> & -> & -> & -> & -> & -> & -> & -> & ->). reflexivity.
Qed.

(** ** What [split] and [strip] compute *)








(** ** BACKEND_CORS_ORIGINS *)





(** ** The email settings *)

Lemma truthy_of_str (o : option string) :
  Config.truthy (Config.of_str o) = true <-> exists h, o = Some h /\ h <> "".
Proof.
  destruct o as [h |]; simpl.
  - rewrite negb_true_iff, String.eqb_neq. split.
    + intros H. exists h. split; [reflexivity | exact H].
    + intros (h' & E & H). congruence.
  - split; [discriminate | intros (h & E & _); discriminate].
Qed.

Lemma truthy_of_int (o : option Z) :
  Config.truthy (Config.of_int o) = true <-> exists p, o = Some p /\ p <> 0.
Proof.
  destruct o as [p |]; simpl.
  - rewrite negb_true_iff, Z.eqb_neq. split.
    + intros H. exists p. split; [reflexivity | exact H].
    + intros (p' & E & H). congruence.
  - split; [discriminate | intros (p & E & _); discriminate].
Qed.

Lemma truthy_py_and (a b : Config.value) :
  Config.truthy (Config.py_and a b) = Config.truthy a && Config.truthy b.
Proof.
  unfold Config.py_and. destruct (Config.truthy a) eqn:E; [reflexivity | exact E].
Qed.

(** C9, as the code has it.  Loading always succeeds on typed input.  When
    EMAILS_FROM_NAME is unset (or empty), the loaded EMAILS_FROM_NAME is the
    loaded PROJECT_NAME.  EMAILS_ENABLED is a boolean, and it is true exactly
    when SMTP_HOST is set and not empty, SMTP_PORT is set and not zero, and
    EMAILS_FROM_EMAIL is set and not empty, whatever the environment says
    for EMAILS_ENABLED itself. *)
Theorem email_settings_spec (env : Config.Environ) :
  exists values,
    Config.load_settings env = Return values
    /\ values !! "PROJECT_NAME"
       = Some (Config.VStr (default "MicroCode API" (Config.env_PROJECT_NAME env)))
    /\ (Config.env_EMAILS_FROM_NAME env = None
        \/ Config.env_EMAILS_FROM_NAME env = Some "" ->
        values !! "EMAILS_FROM_NAME" = values !! "PROJECT_NAME")
    /\ (forall n, Config.env_EMAILS_FROM_NAME env = Some n -> n <> "" ->
        values !! "EMAILS_FROM_NAME" = Some (Config.VStr n))
    /\ (values !! "EMAILS_ENABLED" = Some (Config.VBool true)
        <-> (exists h, Config.env_SMTP_HOST env = Some h /\ h <> "")
            /\ (exists p, Config.env_SMTP_PORT env = Some p /\ p <> 0)
            /\ (exists m, Config.env_EMAILS_FROM_EMAIL env = Some m /\ m <> ""))
    /\ (exists b, values !! "EMAILS_ENABLED" = Some (Config.VBool b)).
Proof.
  destruct env as [pn port host mail fname enabled].
  unfold Config.load_settings, Config.load_field, Config.no_validator, bind.
  cbn [Config.env_PROJECT_NAME Config.env_SMTP_PORT Config.env_SMTP_HOST
       Config.env_EMAILS_FROM_EMAIL Config.env_EMAILS_FROM_NAME
       Config.env_EMAILS_ENABLED].
  set (project := Config.VStr (default "MicroCode API" pn)).
  set (m4 := <["EMAILS_FROM_EMAIL" := Config.of_str mail]>
               (<["SMTP_HOST" := Config.of_str host]>
                  (<["SMTP_PORT" := Config.of_int port]>
                     (<["PROJECT_NAME" := project]> ∅)))).
  assert (Hp4 : m4 !! "PROJECT_NAME" = Some project).
  { unfold m4. rewrite !lookup_insert_ne by congruence. apply lookup_insert_eq. }
  set (name := if negb (Config.truthy (Config.of_str fname))
               then project else Config.of_str fname).
  assert (E : Config.get_project_name (Config.of_str fname) m4 = Return name).
  { unfold Config.get_project_name, name. rewrite Hp4.
    destruct (negb _); reflexivity. }
  rewrite E. clear E.
  set (m5 := <["EMAILS_FROM_NAME" := name]> m4).
  assert (Hh : Config.get m5 "SMTP_HOST" = Config.of_str host).
  { unfold Config.get, m5, m4. rewrite !lookup_insert_ne by congruence.
    rewrite lookup_insert_eq. reflexivity. }
  assert (Ho : Config.get m5 "SMTP_PORT" = Config.of_int port).
  { unfold Config.get, m5, m4. rewrite !lookup_insert_ne by congruence.
    rewrite lookup_insert_eq. reflexivity. }
  assert (Hm : Config.get m5 "EMAILS_FROM_EMAIL" = Config.of_str mail).
  { unfold Config.get, m5, m4. rewrite !lookup_insert_ne by congruence.
    rewrite lookup_insert_eq. reflexivity. }
  unfold Config.get_emails_enabled. rewrite Hh, Ho, Hm.
  eexists. split; [reflexivity |].
  rewrite lookup_insert_eq.
  replace ((<["EMAILS_ENABLED" := Config.VBool
                (Config.truthy
                   (Config.py_and (Config.of_str host)
                      (Config.py_and (Config.of_int port) (Config.of_str mail))))]>
              m5) !! "PROJECT_NAME") with (Some project)
    by (unfold m5; rewrite !lookup_insert_ne by congruence; symmetry; exact Hp4).
  replace ((<["EMAILS_ENABLED" := Config.VBool
                (Config.truthy
                   (Config.py_and (Config.of_str host)
                      (Config.py_and (Config.of_int port) (Config.of_str mail))))]>
              m5) !! "EMAILS_FROM_NAME") with (Some name)
    by (unfold m5; rewrite lookup_insert_ne by congruence;
        rewrite lookup_insert_eq; reflexivity).
  split; [reflexivity |]. split; [| split; [| split]].
  - intros [-> | ->]; reflexivity.
  - intros n -> Hn. unfold name. simpl.
    apply String.eqb_neq in Hn. rewrite Hn. reflexivity.
  - rewrite !truthy_py_and.
    rewrite <- truthy_of_str, <- truthy_of_int, <- truthy_of_str.
    split.
    + intros H. inversion H as [H'].
      apply andb_true_iff in H' as [H1 H']. apply andb_true_iff in H' as [H2 H3].
      rewrite H1, H2, H3. auto.
    + intros (H1 & H2 & H3). rewrite H1, H2, H3. reflexivity.
  - eexists. reflexivity.
Qed.

(** C9 as stated fails: with SMTP_HOST, SMTP_PORT and EMAILS_FROM_EMAIL all
    present, a port of 0 leaves EMAILS_ENABLED false. *)
Example emails_disabled_with_port_zero :
  let env := {|
    Config.env_PROJECT_NAME := None;
    Config.env_SMTP_PORT := Some 0;
    Config.env_SMTP_HOST := Some "smtp.example.com";
    Config.env_EMAILS_FROM_EMAIL := Some "noreply@example.com";
    Config.env_EMAILS_FROM_NAME := None;
    Config.env_EMAILS_ENABLED := None
  |} in
  exists values,
    Config.load_settings env = Return values
    /\ values !! "EMAILS_ENABLED" = Some (Config.VBool false).
Proof. eexists. split; vm_compute; reflexivity. Qed.

(** ** The sign-in keeps the constraints of the table *)

Lemma replace_by_id_absent (k : string) (u' : User.t) (l : list User.t) :
  k ∉ map User.id l -> replace_by_id k u' l = l.
Proof.
  unfold replace_by_id. induction l as [| a l IH]; simpl; [reflexivity |].
  intros Hk. rewrite IH by (intros H; apply Hk; right; exact H).
  rewrite bool_decide_eq_false_2; [reflexivity |].
  intros E. apply Hk. rewrite <- E. left.
Qed.

(** Rewriting a row without touching a column leaves the column as it was. *)
Lemma replace_by_id_column {B : Type} (f : User.t -> B) (db : list User.t)
    (u u' : User.t) :
  NoDup (map User.id db) -> u ∈ db -> f u' = f u ->
  map f (replace_by_id (User.id u) u' db) = map f db.
Proof.
  intros Hnd Hu Hf. unfold replace_by_id. rewrite map_map.
  apply map_ext_in. intros r Hr.
  destruct (bool_decide (User.id r = User.id u)) eqn:E; [| reflexivity].
  apply bool_decide_eq_true in E.
  rewrite (wf_unique_by_id db u r Hnd Hu (proj2 (list_elem_of_In _ _) Hr) E).
  exact Hf.
Qed.

Lemma omap_via_map {K : Type} (f : User.t -> option K) (l : list User.t) :
  omap f l = omap (fun o : option K => o) (map f l).
Proof.
  induction l as [| a l IH]; [reflexivity |].
  change (omap f (a :: l))
    with (match f a with Some y => y :: omap f l | None => omap f l end).
  change (omap (fun o : option K => o) (map f (a :: l)))
    with (match f a with
          | Some y => y :: omap (fun o : option K => o) (map f l)
          | None => omap (fun o : option K => o) (map f l)
          end).
  rewrite IH. reflexivity.
Qed.

Lemma replace_by_id_identity {K : Type} (f : User.t -> option K)
    (db : list User.t) (u u' : User.t) :
  NoDup (map User.id db) -> u ∈ db -> f u' = f u ->
  omap f (replace_by_id (User.id u) u' db) = omap f db.
Proof.
  intros Hnd Hu Hf. rewrite (omap_via_map f (replace_by_id _ _ _)).
  rewrite (replace_by_id_column f db u u' Hnd Hu Hf).
  symmetry. apply omap_via_map.
Qed.

(** Giving one row an identity that no row carries keeps the identities
    unique. *)
Lemma replace_by_id_fresh_identity {K : Type} (f : User.t -> option K)
    (db : list User.t) (u u' : User.t) (g : K) :
  NoDup (map User.id db) -> u ∈ db ->
  NoDup (omap f db) -> (forall x, x ∈ db -> f x <> Some g) ->
  f u' = Some g ->
  NoDup (omap f (replace_by_id (User.id u) u' db)).
Proof.
  intros Hnd Hu Hf Hfresh Hg. set (k := User.id u).
  assert (Hmem : forall l y, y ∈ omap f (replace_by_id k u' l) ->
                   y = g \/ y ∈ omap f l).
  { intros l y Hy. apply list_elem_of_omap in Hy as (x & Hx & Fx).
    unfold replace_by_id in Hx. apply list_elem_of_fmap in Hx as (r & -> & Hr).
    destruct (bool_decide (User.id r = k)).
    - left. congruence.
    - right. apply list_elem_of_omap. exists r. split; assumption. }
  clear Hu. induction db as [| a l IH]; simpl; [constructor |].
  simpl in Hnd. apply NoDup_cons in Hnd as [Ha Hnd].
  assert (Hl : NoDup (omap f l)).
  { simpl in Hf. destruct (f a); [apply NoDup_cons in Hf as [_ Hf] |]; exact Hf. }
  assert (Hfl : forall x, x ∈ l -> f x <> Some g)
    by (intros x Hx; apply Hfresh; right; exact Hx).
  destruct (bool_decide (User.id a = k)) eqn:E.
  - apply bool_decide_eq_true in E. rewrite <- E in *.
    fold (replace_by_id (User.id a) u' l).
    rewrite (replace_by_id_absent _ u' l Ha). rewrite Hg.
    apply NoDup_cons. split; [| exact Hl].
    intros Hin. apply list_elem_of_omap in Hin as (x & Hx & Fx).
    exact (Hfl x Hx Fx).
  - fold (replace_by_id k u' l). specialize (IH Hnd Hl Hfl).
    destruct (f a) as [y |] eqn:Fa; [| exact IH].
    apply NoDup_cons. split; [| exact IH].
    intros Hin. destruct (Hmem l y Hin) as [-> | Hy].
    + apply (Hfresh a); [left | exact Fa].
    + simpl in Hf. rewrite Fa in Hf. apply NoDup_cons in Hf as [Hf _].
      exact (Hf Hy).
Qed.

(** A row rewritten in its mutable columns leaves a well-formed table. *)
Lemma replace_by_id_wf (db : list User.t) (u u' : User.t) :
  db_wf db -> u ∈ db -> same_profile u u' ->
  NoDup (omap User.google_id (replace_by_id (User.id u) u' db)) ->
  db_wf (replace_by_id (User.id u) u' db).
Proof.
  intros [Hid Hne Hem Hg Ht Hh] Hu Hp Hg'.
  pose proof Hp as (Pi & Pe & _ & _ & Pt & Ph & _).
  split.
  - rewrite (replace_by_id_column User.id db u u' Hid Hu Pi). exact Hid.
  - unfold replace_by_id. apply Forall_forall. intros r Hr.
    apply list_elem_of_fmap in Hr as (x & -> & Hx).
    rewrite Forall_forall in Hne.
    destruct (bool_decide (User.id x = User.id u)).
    + rewrite Pi. apply Hne, Hu.
    + apply Hne, Hx.
  - rewrite (replace_by_id_column User.email db u u' Hid Hu Pe). exact Hem.
  - exact Hg'.
  - rewrite (replace_by_id_identity User.telegram_id db u u' Hid Hu Pt). exact Ht.
  - rewrite (replace_by_id_identity User.github_id db u u' Hid Hu Ph). exact Hh.
Qed.

Lemma resolve_google_user_wf (db : list User.t) (gd : GoogleData)
    (g e : string) (now : Z) (uuid : string) :
  db_wf db ->
  gd_google_id gd = Some g -> gd_email gd = Some e ->
  uuid ∉ map User.id db -> uuid <> "" ->
  exists u' db',
    resolve_google_user gd now uuid db = (Return u', db') /\ db_wf db'.
Proof.
  intros Hwf Hg He Hfresh Hne.
  pose proof Hwf as [Hid Hnonempty Hem Hgid Ht Hh].
  destruct (resolve_google_user_cases db gd g e now uuid Hwf Hg He Hfresh)
    as [(u0 & Hu0 & Hg0 & R) | [(u0 & Hnog & Hu0 & He0 & R) | (Hnog & Hnoe & R)]];
    rewrite R; eexists; eexists; (split; [reflexivity |]).
  - destruct (stamp_login_profile now u0) as (Hp & Hsg & _).
    apply replace_by_id_wf; try assumption.
    rewrite (replace_by_id_identity User.google_id db u0 _ Hid Hu0 Hsg).
    exact Hgid.
  - destruct (link_google_profile g now u0) as (Hp1 & Hlg & _ & _).
    destruct (stamp_login_profile now (link_google g now u0)) as (Hp2 & Hsg & _).
    apply replace_by_id_wf; try assumption;
      [exact (same_profile_trans _ _ _ Hp1 Hp2) ..|].
    apply (replace_by_id_fresh_identity User.google_id db u0 _ g);
      try assumption; congruence.
  - set (new := new_user_from_google gd e now uuid).
    split.
    + rewrite map_app. apply NoDup_app. split; [exact Hid |].
      split; [| apply NoDup_singleton].
      intros x Hx Hx'. apply list_elem_of_singleton in Hx'. subst x.
      exact (Hfresh Hx).
    + apply Forall_app. split; [exact Hnonempty |].
      constructor; [exact Hne | constructor].
    + rewrite map_app. apply NoDup_app. split; [exact Hem |].
      split; [| apply NoDup_singleton].
      intros x Hx Hx'. apply list_elem_of_singleton in Hx'. subst x.
      apply list_elem_of_fmap in Hx as (r & Hr & Hin).
      exact (Hnoe r Hin (eq_sym Hr)).
    + rewrite omap_app. simpl. rewrite Hg. apply NoDup_app.
      split; [exact Hgid |]. split; [| apply NoDup_singleton].
      intros x Hx Hx'. apply list_elem_of_singleton in Hx'. subst x.
      apply list_elem_of_omap in Hx as (r & Hin & Hr).
      exact (Hnog r Hin Hr).
    + rewrite omap_app. simpl. rewrite app_nil_r. exact Ht.
    + rewrite omap_app. simpl. rewrite app_nil_r. exact Hh.
Qed.

(** The sign-in preserves the constraints of the [users] table: on a
    well-formed table, for an identity with a subject and an email and a
    fresh, non-empty uuid, it returns, and the table it leaves is well
    formed again. *)
Theorem google_sign_in_keeps_constraints (db : list User.t) (gd : GoogleData)
    (g e : string) (now : Z) (uuid : string) :
  db_wf db ->
  gd_google_id gd = Some g -> gd_email gd = Some e ->
  uuid ∉ map User.id db -> uuid <> "" ->
  exists u' db',
    resolve_google_user gd now uuid db = (Return u', db') /\ db_wf db'.
Proof.
  intros Hwf Hg He Hfresh Hne.
  exact (resolve_google_user_wf db gd g e now uuid Hwf Hg He Hfresh Hne).
Qed.

Lemma sample_uuid_nonempty : sample_uuid <> "".
Proof. discriminate. Qed.

Example google_sign_in_keeps_constraints_witness :
  exists u' db',
    resolve_google_user (sample_data "google-alice" "alice@example.com")
      1000 sample_uuid sample_db = (Return u', db')
    /\ db_wf db'.
Proof.
  exact (google_sign_in_keeps_constraints sample_db
           (sample_data "google-alice" "alice@example.com")
           "google-alice" "alice@example.com" 1000 sample_uuid
           sample_db_wf eq_refl eq_refl sample_uuid_fresh sample_uuid_nonempty).
Defined.

(** ** The tokens of a sign-in, used *)




(** What a sign-in returns is a row of the table it leaves, carries the
    Google identity, and the table is well formed. *)
Lemma resolve_google_user_result (db : list User.t) (gd : GoogleData)
    (g e : string) (now : Z) (uuid : string) :
  db_wf db ->
  gd_google_id gd = Some g -> gd_email gd = Some e ->
  uuid ∉ map User.id db -> uuid <> "" ->
  exists u' db',
    resolve_google_user gd now uuid db = (Return u', db')
    /\ db_wf db' /\ u' ∈ db' /\ User.google_id u' = Some g.
Proof.
  intros Hwf Hg He Hfresh Hne.
  destruct (resolve_google_user_wf db gd g e now uuid Hwf Hg He Hfresh Hne)
    as (u' & db' & R & Hwf').
  exists u', db'. split; [exact R |]. split; [exact Hwf' |].
  destruct (resolve_google_user_cases db gd g e now uuid Hwf Hg He Hfresh)
    as [(u0 & Hu0 & Hg0 & R') | [(u0 & _ & Hu0 & _ & R') | (_ & _ & R')]];
    rewrite R in R'; inversion R'; subst.
  - destruct (stamp_login_profile now u0) as (_ & Hsg & _).
    split; [apply (replace_by_id_in _ _ u0); [exact Hu0 | reflexivity] |].
    congruence.
  - destruct (link_google_profile g now u0) as (_ & Hlg & _ & _).
    destruct (stamp_login_profile now (link_google g now u0)) as (_ & Hsg & _).
    split; [apply (replace_by_id_in _ _ u0); [exact Hu0 | reflexivity] |].
    congruence.
  - split; [apply elem_of_app; right; apply list_elem_of_singleton; reflexivity |].
    exact Hg.
Qed.




(** ** Tokens of one kind presented as the other *)

Lemma verify_encoded (settings : Settings) (p : gmap string jvalue)
    (later : Z) :
  verify_token settings
    (Jose.encode p (SECRET_KEY settings) (ALGORITHM settings)) later
  = (if Jose.validate_claims p later is Return _
     then Return (Some p) else Return None).
Proof.
  unfold verify_token, Jose.encode. simpl.
  rewrite bool_decide_eq_true_2 by apply list_elem_of_singleton, eq_refl.
  rewrite bool_decide_eq_true_2 by reflexivity. simpl. unfold bind.
  destruct (Jose.validate_claims p later) as [[] | e] eqn:V; [reflexivity |].
  rewrite (validate_claims_raises p later e V). reflexivity.
Qed.

Lemma bad_payload_other_type (p : gmap string jvalue) (kind other : string) :
  p !! "type" = Some (JStr other) -> other <> kind ->
  bad_payload (Some p) kind = true.
Proof.
  intros Hp Hne. destruct (bad_payload (Some p) kind) eqn:B; [reflexivity |].
  apply bad_payload_false in B. congruence.
Qed.

(** Whatever claim set and lifetime the caller passes, also one that names a
    [type] of its own, an access token that was made is refused by
    [refresh_access_token] and a refresh token that was made resolves to
    nobody in [get_current_user], at any time and on any table, which stays
    as it was. *)
Theorem token_kinds_not_interchangeable (settings : Settings)
    (data : gmap string jvalue) (expires_delta : option Z) (now later : Z)
    (db : list User.t) :
  (forall t,
     create_access_token settings data expires_delta now = Return t ->
     refresh_access_token settings t later db
     = (Raise (AuthenticationError "Invalid refresh token"), db))
  /\ (forall t,
        create_refresh_token settings data now = Return t ->
        get_current_user settings t later db = (Return None, db)).
Proof.
  split.
  - intros t Ht. apply create_access_token_inv in Ht as (x & -> & _).
    unfold refresh_access_token, io_bind, lift.
    rewrite verify_encoded.
    destruct (Jose.validate_claims _ later); [| reflexivity].
    rewrite (bad_payload_other_type _ "refresh" "access");
      [reflexivity | apply lookup_insert_eq | discriminate].
  - intros t Ht. apply create_refresh_token_inv in Ht as (-> & _).
    unfold get_current_user, io_bind, lift.
    rewrite verify_encoded.
    destruct (Jose.validate_claims _ later); [| reflexivity].
    rewrite (bad_payload_other_type _ "access" "refresh");
      [reflexivity | apply lookup_insert_eq | discriminate].
Qed.

Example token_kinds_not_interchangeable_witness :
  exists access refresh,
    create_access_token (default_settings "k")
      {[ "sub" := JStr (User.id alice); "email" := JStr (User.email alice) ]}
      None 1000 = Return access
    /\ create_refresh_token (default_settings "k")
         {[ "sub" := JStr (User.id alice) ]} 1000 = Return refresh
    /\ refresh_access_token (default_settings "k") access 1001 sample_db
       = (Raise (AuthenticationError "Invalid refresh token"), sample_db)
    /\ get_current_user (default_settings "k") refresh 1001 sample_db
       = (Return None, sample_db).
Proof.
  eexists. eexists. split; [reflexivity |]. split; [reflexivity |]. split.
  - apply (proj1 (token_kinds_not_interchangeable (default_settings "k")
                    {[ "sub" := JStr (User.id alice);
                       "email" := JStr (User.email alice) ]}
                    None 1000 1001 sample_db)).
    reflexivity.
  - apply (proj2 (token_kinds_not_interchangeable (default_settings "k")
                    {[ "sub" := JStr (User.id alice) ]}
                    None 1000 1001 sample_db)).
    reflexivity.
Defined.

(** ** The lifetime of a refresh token *)

Lemma refresh_claims_valid (settings : Settings) (s : string) (now later : Z) :
  let p := <["type" := JStr "refresh"]>
             (<["exp" := JNum (now + REFRESH_TOKEN_EXPIRE_DAYS settings * 86400)]>
                ({[ "sub" := JStr s ]} : gmap string jvalue)) in
  p !! "type" = Some (JStr "refresh")
  /\ p !! "sub" = Some (JStr s)
  /\ Jose.validate_claims p later
     = if later <=? now + REFRESH_TOKEN_EXPIRE_DAYS settings * 86400
       then Return tt else Raise ExpiredSignatureError.
Proof.
  intros p.
  assert (Hother : forall k, k <> "type" -> k <> "exp" -> k <> "sub" ->
                     p !! k = None).
  { intros k H1 H2 H3. unfold p. rewrite !lookup_insert_ne by congruence.
    apply lookup_singleton_ne. congruence. }
  assert (Hsub : p !! "sub" = Some (JStr s)).
  { unfold p. rewrite !lookup_insert_ne by congruence.
    apply lookup_singleton_eq. }
  assert (Hexp : p !! "exp"
                 = Some (JNum (now + REFRESH_TOKEN_EXPIRE_DAYS settings * 86400))).
  { unfold p. rewrite lookup_insert_ne by congruence. apply lookup_insert_eq. }
  split; [apply lookup_insert_eq |]. split; [exact Hsub |].
  unfold Jose.validate_claims, Jose.validate_iat, Jose.validate_nbf,
    Jose.validate_exp, Jose.validate_aud, Jose.validate_sub,
    Jose.validate_jti, Jose.validate_at_hash, bind.
  rewrite Hexp, Hsub. rewrite !Hother by congruence. simpl.
  destruct (Z.leb_spec later (now + REFRESH_TOKEN_EXPIRE_DAYS settings * 86400))
    as [L | L].
  - rewrite (proj2 (Z.ltb_ge _ _) L). reflexivity.
  - rewrite (proj2 (Z.ltb_lt _ _) L). reflexivity.
Qed.

(** Without a datetime to expire at, no access token is made. *)
Lemma create_access_token_overflow (settings : Settings)
    (data : gmap string jvalue) (now : Z) :
  ~ representable (now + ACCESS_TOKEN_EXPIRE_MINUTES settings * 60) ->
  create_access_token settings data None now = Raise OverflowError.
Proof.
  intros H.
  destruct (create_access_token settings data None now) as [t | e] eqn:C.
  - apply create_access_token_inv in C as (x & _ & Hx & ->).
    exfalso. exact (H Hx).
  - apply create_access_token_raises in C. subst e. reflexivity.
Qed.

(** [refresh_access_token] on a table with unique primary keys, step by
    step. *)
Lemma refresh_access_token_run (settings : Settings) (db : list User.t)
    (t : token) (now : Z) :
  NoDup (map User.id db) ->
  refresh_access_token settings t now db
  = (match verify_token settings t now with
     | Return (Some p) =>
         if bool_decide (p !! "type" = Some (JStr "refresh")) then
           match p !! "sub" with
           | Some (JStr s) =>
               match List.find
                       (fun u => bool_decide (JStr (User.id u) = JStr s)) db with
               | Some u =>
                   if User.is_active u
                   then match create_access_token settings
                                {[ "sub" := JStr (User.id u);
                                   "email" := JStr (User.email u) ]}
                                None now with
                        | Return access =>
                            Return {[ "access_token" := RToken access;
                                      "token_type" := RStr "bearer" ]}
                        | Raise e => Raise e
                        end
                   else Raise (AuthenticationError "User not found or inactive")
               | None => Raise (AuthenticationError "User not found or inactive")
               end
           | _ => Raise (AuthenticationError "User not found or inactive")
           end
         else Raise (AuthenticationError "Invalid refresh token")
     | _ => Raise (AuthenticationError "Invalid refresh token")
     end, db).
Proof.
  intros Hnd. unfold refresh_access_token, io_bind, lift.
  destruct (verify_token_returns settings t now)
    as [-> | (alg & p & _ & _ & V & ->)]; [reflexivity |].
  cbn [default from_option id].
  apply validate_claims_ok in V as (_ & _ & _ & _ & V & _).
  destruct (bool_decide (p !! "type" = Some (JStr "refresh"))) eqn:T.
  - apply bool_decide_eq_true in T.
    rewrite (proj2 (bad_payload_false p "refresh") T).
    unfold dict_get.
    destruct (validate_sub_ok p V) as [S | [s S]]; rewrite S;
      cbn [default from_option id].
    + rewrite get_user_by_id_null. reflexivity.
    + rewrite (get_user_by_id_str s db Hnd).
      destruct (List.find _ db) as [u |]; [| reflexivity].
      destruct (User.is_active u); [| reflexivity].
      cbn [negb].
      destruct (create_access_token settings _ None now); reflexivity.
  - apply bool_decide_eq_false in T.
    destruct (bad_payload (Some p) "refresh") eqn:B; [reflexivity |].
    apply bad_payload_false in B. congruence.
Qed.

(** [refresh_access_token] on a refresh token the service made for a row
    of the table, while the token lasts. *)
Lemma refresh_issued_token (settings : Settings) (db : list User.t)
    (u : User.t) (now later : Z) (t : token) :
  NoDup (map User.id db) -> u ∈ db ->
  create_refresh_token settings {[ "sub" := JStr (User.id u) ]} now
  = Return t ->
  later <= now + REFRESH_TOKEN_EXPIRE_DAYS settings * 86400 ->
  refresh_access_token settings t later db
  = (if User.is_active u
     then match create_access_token settings
                  {[ "sub" := JStr (User.id u);
                     "email" := JStr (User.email u) ]} None later with
          | Return access =>
              Return {[ "access_token" := RToken access;
                        "token_type" := RStr "bearer" ]}
          | Raise e => Raise e
          end
     else Raise (AuthenticationError "User not found or inactive"), db).
Proof.
  intros Hnd Hu Ht L.
  apply create_refresh_token_inv in Ht as (-> & _).
  destruct (refresh_claims_valid settings (User.id u) now later)
    as (Htype & Hsub & V).
  rewrite (refresh_access_token_run settings db _ later Hnd).
  rewrite verify_encoded, V.
  rewrite (proj2 (Z.leb_le _ _) L).
  rewrite Htype, Hsub.
  rewrite bool_decide_eq_true_2 by reflexivity.
  rewrite (proj2 (find_by_id (User.id u) db u Hnd) (conj Hu eq_refl)).
  reflexivity.
Qed.

(** A refresh token made at [now] for a row of the table is good up to
    and including [now + REFRESH_TOKEN_EXPIRE_DAYS].  Until then, for an
    active row, it is exchanged for a new access token when the access
    lifetime counted from the time of the exchange ends at a datetime, and
    the exchange raises [OverflowError] when it does not; for an inactive
    row the answer is "User not found or inactive".  One second after the
    expiry it is an invalid refresh token.  The table is never written. *)
Theorem refresh_token_lifetime (settings : Settings) (db : list User.t)
    (u : User.t) (now later : Z) (t : token) :
  NoDup (map User.id db) -> u ∈ db ->
  create_refresh_token settings {[ "sub" := JStr (User.id u) ]} now
  = Return t ->
  let expiry := now + REFRESH_TOKEN_EXPIRE_DAYS settings * 86400 in
  (later <= expiry -> User.is_active u = true ->
   representable later ->
   representable (later + ACCESS_TOKEN_EXPIRE_MINUTES settings * 60) ->
   exists access,
     create_access_token settings
       {[ "sub" := JStr (User.id u); "email" := JStr (User.email u) ]}
       None later = Return access
     /\ refresh_access_token settings t later db
        = (Return {[ "access_token" := RToken access;
                     "token_type" := RStr "bearer" ]}, db))
  /\ (later <= expiry -> User.is_active u = true ->
      ~ representable (later + ACCESS_TOKEN_EXPIRE_MINUTES settings * 60) ->
      refresh_access_token settings t later db = (Raise OverflowError, db))
  /\ (later <= expiry -> User.is_active u = false ->
      refresh_access_token settings t later db
      = (Raise (AuthenticationError "User not found or inactive"), db))
  /\ (expiry < later ->
      refresh_access_token settings t later db
      = (Raise (AuthenticationError "Invalid refresh token"), db)).
Proof.
  intros Hnd Hu Ht. cbv zeta.
  split; [| split; [| split]].
  - intros L Act Hn Hx.
    rewrite (refresh_issued_token settings db u now later t Hnd Hu Ht L), Act.
    rewrite (create_access_token_default settings _ later Hn Hx).
    eexists. split; reflexivity.
  - intros L Act Hx.
    rewrite (refresh_issued_token settings db u now later t Hnd Hu Ht L), Act.
    rewrite (create_access_token_overflow settings _ later Hx). reflexivity.
  - intros L Act.
    rewrite (refresh_issued_token settings db u now later t Hnd Hu Ht L), Act.
    reflexivity.
  - intros L. apply create_refresh_token_inv in Ht as (-> & _).
    destruct (refresh_claims_valid settings (User.id u) now later)
      as (_ & _ & V).
    unfold refresh_access_token, io_bind, lift.
    rewrite verify_encoded, V.
    rewrite (proj2 (Z.leb_gt _ _) L). reflexivity.
Qed.

Example refresh_token_lifetime_witness :
  let settings := default_settings "k" in
  exists t access,
    create_refresh_token settings {[ "sub" := JStr (User.id alice) ]} 1000
    = Return t
    /\ create_access_token settings
         {[ "sub" := JStr (User.id alice);
            "email" := JStr (User.email alice) ]}
         None (1000 + 7 * 86400) = Return access
    /\ refresh_access_token settings t (1000 + 7 * 86400) sample_db
       = (Return {[ "access_token" := RToken access;
                    "token_type" := RStr "bearer" ]}, sample_db).
Proof.
  cbv zeta. eexists.
  assert (T : create_refresh_token (default_settings "k")
                {[ "sub" := JStr (User.id alice) ]} 1000 = Return _)
    by reflexivity.
  destruct (proj1 (refresh_token_lifetime (default_settings "k") sample_db
                     alice 1000 (1000 + 7 * 86400) _ (wf_ids _ sample_db_wf)
                     ltac:(unfold sample_db; left) T))
    as (access & Ca & R).
  - simpl. lia.
  - reflexivity.
  - unfold representable, Datetime.min_time, Datetime.max_time. lia.
  - unfold representable, Datetime.min_time, Datetime.max_time. simpl. lia.
  - exists access. split; [exact T |]. split; [exact Ca | exact R].
Defined.

(** ** A sign-in that fails: what it has written *)












(** ** POST /auth/google: what the caller sees *)


(** ** POST /auth/refresh: what the caller sees *)



(** ** Signing in twice *)

(** After a sign-in on a well-formed table the row it returned is the one
    the look-ups by Google identity and by id find, and a second sign-in
    with the same identity, at any later time, returns the row with the
    same id and adds no row. *)
Theorem second_sign_in_adds_no_row (db : list User.t) (gd : GoogleData)
    (g e : string) (now later : Z) (uuid uuid' : string) :
  db_wf db ->
  gd_google_id gd = Some g -> gd_email gd = Some e ->
  uuid ∉ map User.id db -> uuid <> "" ->
  exists u1 db1,
    resolve_google_user gd now uuid db = (Return u1, db1)
    /\ get_user_by_google_id (Some g) db1 = (Return (Some u1), db1)
    /\ get_user_by_id (JStr (User.id u1)) db1 = (Return (Some u1), db1)
    /\ (uuid' ∉ map User.id db1 ->
        exists u2 db2,
          resolve_google_user gd later uuid' db1 = (Return u2, db2)
          /\ User.id u2 = User.id u1
          /\ map User.id db2 = map User.id db1).
Proof.
  intros Hwf Hg He Hfresh Hne.
  destruct (resolve_google_user_result db gd g e now uuid Hwf Hg He Hfresh Hne)
    as (u1 & db1 & R & Hwf1 & Hin1 & Hg1).
  pose proof Hwf1 as [Hid1 _ _ Hgid1 _ _].
  exists u1, db1. split; [exact R |]. split; [| split].
  - rewrite (get_user_by_google_id_some g db1 Hgid1).
    rewrite (proj2 (find_unique User.google_id g _
                      (fun x => bool_decide_eq_true _) db1 u1 Hgid1)
               (conj Hin1 Hg1)).
    reflexivity.
  - rewrite (get_user_by_id_str _ db1 Hid1).
    rewrite (proj2 (find_by_id (User.id u1) db1 u1 Hid1) (conj Hin1 eq_refl)).
    reflexivity.
  - intros Hfresh'.
    destruct (resolve_google_user_cases db1 gd g e later uuid' Hwf1 Hg He Hfresh')
      as [(u0 & Hu0 & Hg0 & R') | [(u0 & Hnog & _) | (Hnog & _)]].
    + assert (u0 = u1)
        by exact (NoDup_omap_inj _ db1 u0 u1 g Hgid1 Hu0 Hin1 Hg0 Hg1).
      subst u0. rewrite R'. eexists. eexists. split; [reflexivity |].
      destruct (stamp_login_profile later u1) as ((Hi & _) & _).
      split; [exact Hi | apply replace_by_id_ids; exact Hi].
    + exfalso. exact (Hnog u1 Hin1 Hg1).
    + exfalso. exact (Hnog u1 Hin1 Hg1).
Qed.

Example second_sign_in_adds_no_row_witness :
  exists u1 db1,
    resolve_google_user (sample_data "google-carol" "carol@example.com")
      1000 sample_uuid sample_db = (Return u1, db1)
    /\ get_user_by_google_id (Some "google-carol") db1 = (Return (Some u1), db1)
    /\ get_user_by_id (JStr (User.id u1)) db1 = (Return (Some u1), db1).
Proof.
  destruct (second_sign_in_adds_no_row sample_db
              (sample_data "google-carol" "carol@example.com")
              "google-carol" "carol@example.com" 1000 2000 sample_uuid
              "0b0e7d2c-1f4a-4c1e-9a51-000000000004"
              sample_db_wf eq_refl eq_refl sample_uuid_fresh
              sample_uuid_nonempty)
    as (u1 & db1 & R & L1 & L2 & _).
  exists u1, db1. repeat split; assumption.
Defined.

(** ** An explicit lifetime *)




(** ** Tokens signed under another key or algorithm *)




(** ** From sign-in through refresh to the current user *)



(** ** BACKEND_CORS_ORIGINS: one origin per comma *)

Lemma length_split (sep : ascii) (s : string) :
  length (Config.split sep s) = S (occurrences sep s).
Proof.
  induction s as [| c rest IH]; simpl; [reflexivity |].
  destruct (Ascii.eqb c sep); simpl; [rewrite IH; reflexivity |].
  destruct (Config.split sep rest); simpl in *; [discriminate | exact IH].
Qed.

Lemma lstrip_all_space (s : string) :
  all_space s = true -> Config.lstrip s = EmptyString.
Proof.
  induction s as [| c rest IH]; simpl; [reflexivity |].
  destruct (Config.is_space c); simpl; [exact IH | discriminate].
Qed.

(** The split form keeps every piece, also an empty or a blank one: a string
    with [n] commas that does not start with "[" gives a list of [n + 1]
    origins, never the empty list, and position [i] holds the empty origin
    whenever the [i]-th piece is empty or blank; so the empty string gives
    one empty origin. *)
Theorem cors_origins_one_per_comma (s : string) :
  Config.startswith s "[" = false ->
  exists origins,
    Config.assemble_cors_origins (Config.VStr s)
    = Return (Config.VList origins)
    /\ length origins = S (occurrences "," s)
    /\ (forall i piece,
          Config.split "," s !! i = Some piece -> all_space piece = true ->
          origins !! i = Some EmptyString).
Proof.
  intros Hs. exists (List.map Config.strip (Config.split "," s)).
  unfold Config.assemble_cors_origins. rewrite Hs.
  split; [reflexivity |].
  split; [rewrite length_map; apply length_split |].
  intros i piece Hi Hp.
  change (List.map Config.strip (Config.split "," s))
    with (Config.strip <$> Config.split "," s).
  rewrite list_lookup_fmap, Hi. simpl. f_equal.
  unfold Config.strip. rewrite (lstrip_all_space piece Hp). reflexivity.
Qed.

Example cors_origins_one_per_comma_witness :
  exists origins,
    Config.assemble_cors_origins (Config.VStr "https://a.example, ,")
    = Return (Config.VList origins)
    /\ length origins = 3%nat
    /\ origins !! 1%nat = Some EmptyString
    /\ origins !! 2%nat = Some EmptyString.
Proof.
  destruct (cors_origins_one_per_comma "https://a.example, ," eq_refl)
    as (origins & H & Hlen & Hblank).
  exists origins. split; [exact H |]. split; [exact Hlen |].
  split; [apply (Hblank 1%nat " ") | apply (Hblank 2%nat "")]; reflexivity.
Defined.

(** ** The sign-in response and GET /auth/me *)



